(** * Session store, route guard and role-scoped navigation

    A shallow embedding of the client-side session core of the
    Enterprise One front end:

    - [contexts/AuthContext] : [AuthProvider] with its state hooks
      ([user], [token], [loading]), the header effect, [fetchUser],
      [login], [biometricLogin] and [logout];
    - [App] : [ProtectedRoute];
    - [components/AppShell] : [NAV_ITEMS], [ADMIN_NAV], [filteredNav],
      [filteredAdmin].

    The browser's [localStorage] and axios' [defaults.headers.common] are
    finite maps from strings to strings.  Every asynchronous operation is run
    to settlement in one piece: the reply of the REST collaborator is an
    argument of the operation, and requests are appended to a log.  Where a
    reply arriving late or a callback held by a view matters, [fetchUser] is
    also given split at its [await] and with the token it closes over made
    explicit. *)

From stdpp Require Import gmap strings list fin_maps.

Open Scope string_scope.

(** ** Data model *)

(** The object answered by [GET /auth/me]; only the fields the views read. *)
Record Profile := mkProfile {
  id : string;
  name : string;
  email : string;
  role : string;
  subscription : string;
  biometric_enabled : bool
}.

(** [res.data] of [POST /auth/login] and [POST /auth/biometric/login]. *)
Record LoginData := mkLoginData {
  data_token : string;
  data_user : Profile
}.

(** What an axios call rejects with: a reply outside 2xx, or no reply. *)
Inductive AxiosError :=
  | ErrResponse (status : nat)
  | ErrNetwork.

(** Settlement of a request: [inl] rejects, [inr] resolves with [res.data]. *)
Definition Reply (A : Type) : Type := AxiosError + A.

Record Request := mkRequest {
  req_method : string;
  req_url : string;
  req_authorization : option string;
  req_body : list (string * string)
}.

(** The component state of [AuthProvider] together with the two mutable
    objects it writes to and the log of requests sent through [api]. *)
Record World := mkWorld {
  user : option Profile;
  token : option string;
  loading : bool;
  localStorage : gmap string string;
  headers : gmap string string;
  network : list Request
}.

(** ** JavaScript fragments *)

(** Truthiness of a [string | null]: [null] and the empty string are falsy. *)
Definition truthy (v : option string) : bool :=
  match v with
  | Some s => negb (String.eqb s "")
  | None => false
  end.

(** Truthiness of an [object | null]. *)
Definition truthy_obj {A} (v : option A) : bool :=
  match v with
  | Some _ => true
  | None => false
  end.

(** [Object.is] on [string | null], React's comparison of dependencies. *)
Definition Object_is (a b : option string) : bool :=
  match a, b with
  | Some x, Some y => String.eqb x y
  | None, None => true
  | _, _ => false
  end.

(** ** Completions and the monad of an async function body

    A body either completes normally or throws; the world it has written to
    survives a throw. *)
Inductive Completion (A : Type) :=
  | Normal (a : A)
  | Throw (e : AxiosError).
Arguments Normal {A} a.
Arguments Throw {A} e.

Definition M (A : Type) : Type := World → Completion A * World.

Definition ret {A} (a : A) : M A := λ w, (Normal a, w).

Definition bind {A B} (c : M A) (k : A → M B) : M B :=
  λ w, match c w with
       | (Normal a, w1) => k a w1
       | (Throw e, w1) => (Throw e, w1)
       end.

Notation "'do' x <- c ; k" := (bind c (λ x, k))
  (at level 10, x name, c at level 100, k at level 200).
Notation "c ;; k" := (bind c (λ _, k))
  (at level 100, k at level 200, right associativity).

(** [try { body } catch { handler } finally { finalizer }]; the [catch]
    clause binds no error variable. *)
Definition try_catch_finally {A} (body handler : M A) (finalizer : M unit) : M A :=
  λ w,
    let '(r, w1) :=
      match body w with
      | (Normal a, w1) => (Normal a, w1)
      | (Throw _, w1) => handler w1
      end in
    match finalizer w1 with
    | (Normal _, w2) => (r, w2)
    | (Throw e, w2) => (Throw e, w2)
    end.

Definition exec {A} (c : M A) (w : World) : World := snd (c w).
Definition eval {A} (c : M A) (w : World) : Completion A := fst (c w).

(** ** Primitive effects *)

Definition setUser (u : option Profile) : M unit :=
  λ w, (Normal tt, mkWorld u (token w) (loading w) (localStorage w) (headers w) (network w)).

Definition setToken (t : option string) : M unit :=
  λ w, (Normal tt, mkWorld (user w) t (loading w) (localStorage w) (headers w) (network w)).

Definition setLoading (b : bool) : M unit :=
  λ w, (Normal tt, mkWorld (user w) (token w) b (localStorage w) (headers w) (network w)).

Definition localStorage_setItem (k v : string) : M unit :=
  λ w, (Normal tt,
        mkWorld (user w) (token w) (loading w) (<[k:=v]> (localStorage w)) (headers w) (network w)).

Definition localStorage_removeItem (k : string) : M unit :=
  λ w, (Normal tt,
        mkWorld (user w) (token w) (loading w) (delete k (localStorage w)) (headers w) (network w)).

Definition set_headers (h : gmap string string) (w : World) : World :=
  mkWorld (user w) (token w) (loading w) (localStorage w) h (network w).

(** A request through the [api] instance carries the default headers of the
    moment it is sent; it settles with the collaborator's [reply]. *)
Definition api_request {A} (method url : string) (body : list (string * string))
    (reply : Reply A) : M A :=
  λ w,
    let rq := mkRequest method url (headers w !! "Authorization") body in
    let w1 := mkWorld (user w) (token w) (loading w) (localStorage w) (headers w)
                      (network w ++ [rq]) in
    match reply with
    | inl e => (Throw e, w1)
    | inr a => (Normal a, w1)
    end.

Definition api_get {A} (url : string) : Reply A → M A := api_request "GET" url [].
Definition api_post {A} (url : string) (body : list (string * string)) : Reply A → M A :=
  api_request "POST" url body.

(** ** AuthProvider

    The callbacks are taken from the latest render, so the [token] that
    [fetchUser] closes over is the token of the world it runs in. *)

(** [useState(null)], [useState(localStorage.getItem('token'))],
    [useState(true)], over a fresh [axios.create] instance. *)
Definition mount (storage : gmap string string) : World :=
  mkWorld None (storage !! "token") true storage ∅ [].

(** The template literal [`Bearer ${token}`]. *)
Definition Bearer (t : option string) : string :=
  "Bearer " ++ match t with Some s => s | None => "null" end.

(** The effect on [[token]]. *)
Definition syncAuthHeader (w : World) : World :=
  if truthy (token w) then
    set_headers (<["Authorization" := Bearer (token w)]> (headers w)) w
  else
    set_headers (delete "Authorization" (headers w)) w.

Definition fetchUser (me : Reply Profile) : M unit :=
  λ w,
    if negb (truthy (token w)) then setLoading false w
    else
      try_catch_finally
        (do data <- api_get "/auth/me" me;
         setUser (Some data))
        (localStorage_removeItem "token";;
         setToken None;;
         setUser None)
        (setLoading false) w.

Definition login (email password : string) (reply : Reply LoginData) : M Profile :=
  do data <- api_post "/auth/login" [("email", email); ("password", password)] reply;
  let newToken := data_token data in
  let userData := data_user data in
  localStorage_setItem "token" newToken;;
  setToken (Some newToken);;
  setUser (Some userData);;
  ret userData.

Definition biometricLogin (credentialId email : string) (reply : Reply LoginData) : M Profile :=
  do data <- api_post "/auth/biometric/login"
               [("credential_id", credentialId); ("user_email", email)] reply;
  let newToken := data_token data in
  let userData := data_user data in
  localStorage_setItem "token" newToken;;
  setToken (Some newToken);;
  setUser (Some userData);;
  ret userData.

Definition logout : M unit :=
  localStorage_removeItem "token";;
  setToken None;;
  setUser None.

(** ** Renders and effects

    An operation that changes [token] causes a render in which both effects
    run again, in the order they are declared: the header effect (its
    dependency is [token]) and the effect calling [fetchUser] (its dependency
    [fetchUser] is re-created by [useCallback] exactly when [token] changes).
    When that [fetchUser] clears the token, the render that follows runs the
    two effects once more, on the token [null]. *)
Definition effects (me : Reply Profile) (w : World) : World :=
  exec (fetchUser me) (syncAuthHeader w).

Definition commit (prev : option string) (me : Reply Profile) (w : World) : World :=
  if Object_is prev (token w) then w
  else
    let w1 := effects me w in
    if Object_is (token w) (token w1) then w1 else effects me w1.

(** Mounting runs both effects unconditionally. *)
Definition bootstrap (storage : gmap string string) (me : Reply Profile) : World :=
  let w0 := mount storage in
  commit (token w0) me (effects me w0).

(** The calls a view can make on the context value. *)
Inductive Action :=
  | CallLogin (email password : string) (reply : Reply LoginData)
  | CallBiometricLogin (credentialId email : string) (reply : Reply LoginData)
  | CallLogout
  | CallRefreshUser.

(** A call together with what [GET /auth/me] answers while it is handled. *)
Record Event := mkEvent {
  ev_action : Action;
  ev_me : Reply Profile
}.

Definition perform (a : Action) (me : Reply Profile) (w : World) : World :=
  match a with
  | CallLogin e p reply => exec (login e p reply) w
  | CallBiometricLogin c e reply => exec (biometricLogin c e reply) w
  | CallLogout => exec logout w
  | CallRefreshUser => exec (fetchUser me) w
  end.

Definition dispatch (ev : Event) (w : World) : World :=
  commit (token w) (ev_me ev) (perform (ev_action ev) (ev_me ev) w).

Fixpoint run (evs : list Event) (w : World) : World :=
  match evs with
  | [] => w
  | ev :: rest => run rest (dispatch ev w)
  end.

(** ** Session status, as the views read it *)

Inductive Status := Loading | Authenticated | Anonymous.

Definition status (w : World) : Status :=
  if loading w then Loading
  else if truthy_obj (user w) then Authenticated
  else Anonymous.

(** ** ProtectedRoute *)

Inductive Element (V : Type) :=
  | Spinner
  | Navigate (to : string) (replace : bool)
  | AppShell (children : V).
Arguments Spinner {V}.
Arguments Navigate {V} to replace.
Arguments AppShell {V} children.

Definition ProtectedRoute {V} (w : World) (children : V) : Element V :=
  if loading w then Spinner
  else if negb (truthy_obj (user w)) then Navigate "/login" true
  else AppShell children.

(** ** AppShell navigation *)

Record NavItem := mkNavItem {
  path : string;
  label : string;
  icon : string;
  roles : list string
}.

Definition NAV_ITEMS : list NavItem := [
  mkNavItem "/dashboard" "Dashboard" "LayoutDashboard"
            ["super_admin"; "main_handler"; "admin"; "employee"];
  mkNavItem "/crm" "CRM" "Briefcase" ["super_admin"; "main_handler"; "admin"];
  mkNavItem "/projects" "Projects" "FolderKanban"
            ["super_admin"; "main_handler"; "admin"; "employee"];
  mkNavItem "/hr" "HR" "Building2" ["super_admin"; "main_handler"; "admin"; "employee"];
  mkNavItem "/finance" "Finance" "Receipt"
            ["super_admin"; "main_handler"; "admin"; "employee"];
  mkNavItem "/subscription" "Subscription" "CreditCard"
            ["super_admin"; "main_handler"; "admin"; "employee"]
].

Definition ADMIN_NAV : list NavItem := [
  mkNavItem "/users" "Users" "Users" ["super_admin"; "main_handler"];
  mkNavItem "/audit-logs" "Audit Logs" "FileText" ["super_admin"; "main_handler"]
].

(** [user?.role]: [undefined] (here [None]) when there is no user. *)
Definition optional_role (u : option Profile) : option string :=
  match u with
  | Some p => Some (role p)
  | None => None
  end.

(** [Array.prototype.includes] on an array of strings. *)
Fixpoint includes (arr : list string) (v : option string) : bool :=
  match arr with
  | [] => false
  | x :: rest => if Object_is (Some x) v then true else includes rest v
  end.

(** [Array.prototype.filter]. *)
Fixpoint Array_filter {A} (callback : A → bool) (arr : list A) : list A :=
  match arr with
  | [] => []
  | x :: rest =>
      if callback x then x :: Array_filter callback rest
      else Array_filter callback rest
  end.

Definition filterByRole (items : list NavItem) (r : option string) : list NavItem :=
  Array_filter (λ n, includes (roles n) r) items.

Definition filteredNav (u : option Profile) : list NavItem :=
  filterByRole NAV_ITEMS (optional_role u).

Definition filteredAdmin (u : option Profile) : list NavItem :=
  filterByRole ADMIN_NAV (optional_role u).

(** ** The session invariant and its vocabulary *)

(** The token is present exactly when the user is. *)
Definition session_ok (w : World) : Prop :=
  truthy (token w) = truthy_obj (user w).

(** The invariant of the data model, on the status the views derive. *)
Definition session_inv (w : World) : Prop :=
  (status w = Authenticated → truthy (token w) = true ∧ truthy_obj (user w) = true) ∧
  (status w = Anonymous → truthy (token w) = false ∧ user w = None).

(** A reply of the login endpoints that carries a bearer token carries a
    non-empty one. *)
Definition issues_token (reply : Reply LoginData) : bool :=
  match reply with
  | inr d => negb (String.eqb (data_token d) "")
  | inl _ => true
  end.

Definition action_wf (a : Action) : bool :=
  match a with
  | CallLogin _ _ reply => issues_token reply
  | CallBiometricLogin _ _ reply => issues_token reply
  | CallLogout => true
  | CallRefreshUser => true
  end.

Definition event_wf (ev : Event) : bool := action_wf (ev_action ev).

(** The server's rejection of the bearer token, as opposed to a transport
    failure.  [fetchUser] itself draws no such distinction. *)
Definition authorization_error (e : AxiosError) : bool :=
  match e with
  | ErrResponse 401 => true
  | ErrResponse 403 => true
  | _ => false
  end.

(** The default [Authorization] header agrees with the token. *)
Definition headers_synced (w : World) : Prop :=
  headers w !! "Authorization" =
    match token w with
    | Some t => if String.eqb t "" then None else Some ("Bearer " ++ t)
    | None => None
    end.

(** No request goes out with an empty credential. *)
Definition authorization_ok (rq : Request) : Prop :=
  match req_authorization rq with
  | None => True
  | Some h => ∃ t, t ≠ "" ∧ h = "Bearer " ++ t
  end.

(** The request [fetchUser] sends from world [w]. *)
Definition me_request (w : World) : Request :=
  mkRequest "GET" "/auth/me" (headers w !! "Authorization") [].

(** Header and request log together. *)
Definition wire_ok (w : World) : Prop :=
  headers_synced w ∧ Forall authorization_ok (network w).

(** ** The guard's contract and test data *)

(** The guard's contract as the design words it, a table over the status;
    [ProtectedRoute] above is compared with it. *)
Definition RouteGuard {V} (st : Status) (children : V) : Element V :=
  match st with
  | Loading => Spinner
  | Anonymous => Navigate "/login" true
  | Authenticated => AppShell children
  end.

Definition with_role (r : string) (p : Profile) : Profile :=
  mkProfile (id p) (name p) (email p) r (subscription p) (biometric_enabled p).

(** The demo accounts of the login page. *)
Definition emily : Profile :=
  mkProfile "u-4" "Emily Park" "employee@enterprise.com" "employee" "free" false.

Definition marcus : Profile :=
  mkProfile "u-1" "Marcus Chen" "superadmin@enterprise.com" "super_admin" "enterprise" true.

Definition emily_storage : gmap string string := {["token" := "jwt-emily"]}.

(** The session of a reload with a stored token the server accepts. *)
Definition emily_session : World := bootstrap emily_storage (inr emily).

(** ** AppRoutes

    The route table of [App].  A location is identified by the route the
    router has selected for it: one of the declared paths, or the catch-all
    [*]. *)

Inductive Page :=
  | LandingPage | LoginPage | RegisterPage | BiometricSetupPage
  | DashboardPage | CRMPage | ProjectsPage | HRPage | FinancePage
  | SubscriptionPage | NotificationsPage | AuditLogsPage | UserManagementPage
  | AnalyticsPage | IdeasPage | PitchDeckPage | SettingsPage.

Inductive RoutePattern :=
  | R_root | R_login | R_register | R_setup_biometrics
  | R_dashboard | R_crm | R_projects | R_hr | R_finance | R_subscription
  | R_notifications | R_audit_logs | R_users | R_analytics | R_ideas | R_pitch
  | R_settings | R_star.

Definition route_path (r : RoutePattern) : string :=
  match r with
  | R_root => "/" | R_login => "/login" | R_register => "/register"
  | R_setup_biometrics => "/setup-biometrics" | R_dashboard => "/dashboard"
  | R_crm => "/crm" | R_projects => "/projects" | R_hr => "/hr"
  | R_finance => "/finance" | R_subscription => "/subscription"
  | R_notifications => "/notifications" | R_audit_logs => "/audit-logs"
  | R_users => "/users" | R_analytics => "/analytics" | R_ideas => "/ideas"
  | R_pitch => "/pitch" | R_settings => "/settings" | R_star => "*"
  end.

Definition declared_routes : list RoutePattern :=
  [R_root; R_login; R_register; R_setup_biometrics; R_dashboard; R_crm;
   R_projects; R_hr; R_finance; R_subscription; R_notifications; R_audit_logs;
   R_users; R_analytics; R_ideas; R_pitch; R_settings].

(** What a route shows: a page on its own, or what [ProtectedRoute] (or a
    bare [Navigate], or the waiting indicator) returns. *)
Inductive Screen :=
  | Bare (p : Page)
  | Show (e : Element Page).

Definition AppRoutes (w : World) (r : RoutePattern) : Screen :=
  if loading w then Show Spinner
  else
    match r with
    | R_root => Bare LandingPage
    | R_login =>
        if truthy_obj (user w) then Show (Navigate "/dashboard" true) else Bare LoginPage
    | R_register =>
        if truthy_obj (user w) then Show (Navigate "/dashboard" true) else Bare RegisterPage
    | R_setup_biometrics =>
        if truthy_obj (user w) then Bare BiometricSetupPage else Show (Navigate "/login" true)
    | R_dashboard => Show (ProtectedRoute w DashboardPage)
    | R_crm => Show (ProtectedRoute w CRMPage)
    | R_projects => Show (ProtectedRoute w ProjectsPage)
    | R_hr => Show (ProtectedRoute w HRPage)
    | R_finance => Show (ProtectedRoute w FinancePage)
    | R_subscription => Show (ProtectedRoute w SubscriptionPage)
    | R_notifications => Show (ProtectedRoute w NotificationsPage)
    | R_audit_logs => Show (ProtectedRoute w AuditLogsPage)
    | R_users => Show (ProtectedRoute w UserManagementPage)
    | R_analytics => Show (ProtectedRoute w AnalyticsPage)
    | R_ideas => Show (ProtectedRoute w IdeasPage)
    | R_pitch => Show (ProtectedRoute w PitchDeckPage)
    | R_settings => Show (ProtectedRoute w SettingsPage)
    | R_star => Show (Navigate "/" true)
    end.

(** The route selected for the target of a [Navigate]: the route declared
    with exactly that path, else the catch-all. *)
Fixpoint select_among (rs : list RoutePattern) (to : string) : RoutePattern :=
  match rs with
  | [] => R_star
  | r :: rest => if String.eqb (route_path r) to then r else select_among rest to
  end.

Definition select_route (to : string) : RoutePattern := select_among declared_routes to.

(** Follow redirects, at most [hops] of them. *)
Fixpoint settle (hops : nat) (w : World) (r : RoutePattern) : Screen :=
  match AppRoutes w r with
  | Show (Navigate to _) =>
      match hops with
      | 0 => AppRoutes w r
      | S n => settle n w (select_route to)
      end
  | s => s
  end.

Definition is_redirect (s : Screen) : bool :=
  match s with
  | Show (Navigate _ _) => true
  | _ => false
  end.

(** ** AppShell: badge count and avatar initials *)

Record Notification := mkNotification {
  notif_id : string;
  notif_type : string;
  notif_title : string;
  notif_message : string;
  notif_created_at : string;
  notif_read : bool
}.

(** [notifications.filter(n => !n.read).length] *)
Definition unread (notifications : list Notification) : nat :=
  length (Array_filter (λ n, negb (notif_read n)) notifications).

(** [String.prototype.split] on a one-character separator; [cur] is the piece
    being read, in reverse. *)
Fixpoint split_from (sep : Ascii.ascii) (s : string) (cur : string) : list string :=
  match s with
  | EmptyString => [String.rev cur]
  | String c rest =>
      if Ascii.eqb c sep then String.rev cur :: split_from sep rest EmptyString
      else split_from sep rest (String c cur)
  end.

Definition split (sep : Ascii.ascii) (s : string) : list string := split_from sep s EmptyString.

(** [n[0]]: [undefined] (here [None]) on the empty string. *)
Definition char0 (s : string) : option Ascii.ascii :=
  match s with
  | EmptyString => None
  | String c _ => Some c
  end.

(** [Array.prototype.join('')]: [undefined] elements print as nothing. *)
Fixpoint join_empty (xs : list (option Ascii.ascii)) : string :=
  match xs with
  | [] => EmptyString
  | Some c :: rest => String c (join_empty rest)
  | None :: rest => join_empty rest
  end.

(** The separator [' ']. *)
Definition space : Ascii.ascii := Ascii.Ascii false false false false false true false false.

(** [user?.name?.split(' ').map(n => n[0]).join('') || '?'] *)
Definition initials (u : option Profile) : string :=
  match u with
  | Some p =>
      let joined := join_empty (char0 <$> split space (name p)) in
      if truthy (Some joined) then joined else "?"
  | None => "?"
  end.

(** ** Pages that call the session store

    A page handler runs over the session world, the toasts shown, the
    [navigate] calls made, and the state hooks of its page. *)

Inductive Toast :=
  | toast_error (msg : string)
  | toast_success (msg : string).

Record UI := mkUI {
  world : World;
  toasts : list Toast;
  history : list string;
  login_loading : bool;
  registering : bool;
  checkingPayment : bool;
  notifications : list Notification
}.

Definition U (A : Type) : Type := UI → Completion A * UI.

Definition retU {A} (a : A) : U A := λ ui, (Normal a, ui).

Definition bindU {A B} (c : U A) (k : A → U B) : U B :=
  λ ui, match c ui with
        | (Normal a, ui1) => k a ui1
        | (Throw e, ui1) => (Throw e, ui1)
        end.

Declare Scope ui_scope.
Delimit Scope ui_scope with ui.
Notation "'do' x <- c ; k" := (bindU c (λ x, k))
  (at level 10, x name, c at level 100, k at level 200) : ui_scope.
Notation "c ;; k" := (bindU c (λ _, k))
  (at level 100, k at level 200, right associativity) : ui_scope.

(** [try { body } catch (err) { handler }] *)
Definition try_catch {A} (body : U A) (handler : AxiosError → U A) : U A :=
  λ ui, match body ui with
        | (Normal a, ui1) => (Normal a, ui1)
        | (Throw e, ui1) => handler e ui1
        end.

(** [try { body } catch (err) { handler } finally { finalizer }] *)
Definition try_catch_finally_err {A} (body : U A) (handler : AxiosError → U A)
    (finalizer : U unit) : U A :=
  λ ui,
    let '(r, ui1) := try_catch body handler ui in
    match finalizer ui1 with
    | (Normal _, ui2) => (r, ui2)
    | (Throw e, ui2) => (Throw e, ui2)
    end.

Definition set_world (w : World) (ui : UI) : UI :=
  mkUI w (toasts ui) (history ui) (login_loading ui) (registering ui)
       (checkingPayment ui) (notifications ui).

(** A call that only touches the session world. *)
Definition in_world {A} (c : M A) : U A :=
  λ ui, let '(r, w1) := c (world ui) in (r, set_world w1 ui).

(** [await login(email, password)]: the call, then the render it causes. *)
Definition await_login (email password : string) (reply : Reply LoginData)
    (me : Reply Profile) : U Profile :=
  λ ui,
    let w := world ui in
    let '(r, w1) := login email password reply w in
    (r, set_world (commit (token w) me w1) ui).

(** [await refreshUser()]: the call, then the render it causes. *)
Definition await_refreshUser (me : Reply Profile) : U unit :=
  λ ui,
    let w := world ui in
    let '(r, w1) := fetchUser me w in
    (r, set_world (commit (token w) me w1) ui).

Definition toast (t : Toast) : U unit :=
  λ ui, (Normal tt,
         mkUI (world ui) (toasts ui ++ [t]) (history ui) (login_loading ui)
              (registering ui) (checkingPayment ui) (notifications ui)).

Definition navigate (to : string) : U unit :=
  λ ui, (Normal tt,
         mkUI (world ui) (toasts ui) (history ui ++ [to]) (login_loading ui)
              (registering ui) (checkingPayment ui) (notifications ui)).

Definition setLoginLoading (b : bool) : U unit :=
  λ ui, (Normal tt,
         mkUI (world ui) (toasts ui) (history ui) b (registering ui)
              (checkingPayment ui) (notifications ui)).

Definition setRegistering (b : bool) : U unit :=
  λ ui, (Normal tt,
         mkUI (world ui) (toasts ui) (history ui) (login_loading ui) b
              (checkingPayment ui) (notifications ui)).

Definition setCheckingPayment (b : bool) : U unit :=
  λ ui, (Normal tt,
         mkUI (world ui) (toasts ui) (history ui) (login_loading ui)
              (registering ui) b (notifications ui)).

Definition setNotifications (ns : list Notification) : U unit :=
  λ ui, (Normal tt,
         mkUI (world ui) (toasts ui) (history ui) (login_loading ui)
              (registering ui) (checkingPayment ui) ns).

Definition api_put {A} (url : string) (body : list (string * string)) : Reply A → M A :=
  api_request "PUT" url body.

(** [err.response?.data?.detail || fallback]; the reply body of a rejection
    is not part of [AxiosError], so reading [detail] off it is an argument. *)
Definition detail_or (detail : AxiosError → option string) (err : AxiosError)
    (fallback : string) : string :=
  if truthy (detail err) then default fallback (detail err) else fallback.

Open Scope ui_scope.

(** *** LoginPage *)

Definition handleLogin (detail : AxiosError → option string) (email password : string)
    (reply : Reply LoginData) (me : Reply Profile) : U unit :=
  λ ui,
    if negb (truthy (Some email)) || negb (truthy (Some password)) then
      toast (toast_error "Please enter email and password") ui
    else
      (setLoginLoading true;;
       try_catch_finally_err
         (await_login email password reply me;;
          toast (toast_success "Welcome back!");;
          navigate "/dashboard")
         (λ err, toast (toast_error (detail_or detail err "Login failed")))
         (setLoginLoading false)) ui.

(** *** RegisterPage *)

Record RegisterForm := mkRegisterForm {
  form_name : string;
  form_email : string;
  form_password : string;
  form_company : string
}.

(** [res.data] of [POST /auth/register]. *)
Record RegisterData := mkRegisterData {
  reg_token : string
}.

(** [form.password.length] is read as [String.length]: the number of
    characters of the string, which for an ASCII password is its number of
    UTF-16 code units. *)
Definition handleRegister (detail : AxiosError → option string) (form : RegisterForm)
    (purchasedDomain : option string) (registered : Reply RegisterData)
    (reply : Reply LoginData) (me : Reply Profile) : U unit :=
  λ ui,
    if negb (truthy (Some (form_name form))) || negb (truthy (Some (form_email form)))
       || negb (truthy (Some (form_password form))) then
      toast (toast_error "All fields required") ui
    else if (String.length (form_password form) <? 6)%nat then
      toast (toast_error "Password must be at least 6 characters") ui
    else
      (setRegistering true;;
       try_catch_finally_err
         (do data <- in_world
                       (api_post "/auth/register"
                          [("name", form_name form); ("email", form_email form);
                           ("password", form_password form);
                           ("company", form_company form);
                           ("domain", if truthy purchasedDomain
                                      then default "" purchasedDomain else "")]
                          registered);
          in_world (localStorage_setItem "token" (reg_token data));;
          toast (toast_success "Account created! Welcome to Enterprise One.");;
          await_login (form_email form) (form_password form) reply me;;
          navigate "/dashboard")
         (λ err, toast (toast_error (detail_or detail err "Registration failed")))
         (setRegistering false)) ui.

(** *** SubscriptionPage *)

(** [res.data] of [GET /subscriptions/status/:id]. *)
Record StatusData := mkStatusData {
  payment_status : string;
  session_status : string
}.

(** [pollStatus(sessionId, attempts)].  The body reports whether it has armed
    the timer; the timer's callback is the next round.  [rounds] bounds the
    timers followed, and [replies k] is what the status endpoint answers to
    attempt [k]. *)
Fixpoint pollStatus (rounds : nat) (sessionId : string) (attempts : nat)
    (replies : nat → Reply StatusData) (me : Reply Profile) : U unit :=
  match rounds with
  | 0 => retU tt
  | S rounds' =>
      if (5 <=? attempts)%nat then
        setCheckingPayment false;;
        toast (toast_error "Payment status check timed out")
      else
        do again <-
          try_catch
            (do data <- in_world (api_get ("/subscriptions/status/" +:+ sessionId)
                                          (replies attempts));
             if String.eqb (payment_status data) "paid" then
               setCheckingPayment false;;
               toast (toast_success "Subscription activated!");;
               await_refreshUser me;;
               retU false
             else if String.eqb (session_status data) "expired" then
               setCheckingPayment false;;
               toast (toast_error "Session expired");;
               retU false
             else retU true)
            (λ _, setCheckingPayment false;;
                  toast (toast_error "Failed to check status");;
                  retU false);
        if again then pollStatus rounds' sessionId (attempts + 1) replies me
        else retU tt
  end.

(** *** NotificationsPage *)

Definition mark_read (n : Notification) : Notification :=
  mkNotification (notif_id n) (notif_type n) (notif_title n) (notif_message n)
                 (notif_created_at n) true.

Definition markRead (id : string) (reply : Reply unit) : U unit :=
  λ ui,
    try_catch
      (in_world (api_put ("/notifications/" +:+ id +:+ "/read") [] reply);;
       setNotifications
         ((λ n, if String.eqb (notif_id n) id then mark_read n else n)
            <$> notifications ui))
      (λ _, toast (toast_error "Failed")) ui.

Definition markAllRead (reply : Reply unit) : U unit :=
  λ ui,
    try_catch
      (in_world (api_put "/notifications/read-all" [] reply);;
       setNotifications (mark_read <$> notifications ui);;
       toast (toast_success "All marked as read"))
      (λ _, toast (toast_error "Failed")) ui.

Close Scope ui_scope.

Definition execU {A} (c : U A) (ui : UI) : UI := snd (c ui).
Definition evalU {A} (c : U A) (ui : UI) : Completion A := fst (c ui).

(** The page once a status request for [sessionId] has gone out. *)
Definition status_polled (sessionId : string) (ui : UI) : UI :=
  let w := world ui in
  set_world
    (mkWorld (user w) (token w) (loading w) (localStorage w) (headers w)
       (network w ++ [mkRequest "GET" ("/subscriptions/status/" +:+ sessionId)
                        (headers w !! "Authorization") []]))
    ui.

(** A status reply that makes [pollStatus] arm its timer again: answered,
    not yet paid, not expired. *)
Definition is_pending (reply : Reply StatusData) : bool :=
  match reply with
  | inr d => negb (String.eqb (payment_status d) "paid") &&
             negb (String.eqb (session_status d) "expired")
  | inl _ => false
  end.

(** A page opened over session [w], nothing shown or visited yet. *)
Definition fresh_ui (w : World) : UI := mkUI w [] [] false false false [].

(** ** Further vocabulary *)

(** Durable storage holds the token of the session, or none. *)
Definition storage_agrees (w : World) : Prop :=
  localStorage w !! "token" = token w.


(** ** fetchUser as a callback held by a view, and around its await

    [useCallback(..., [token])] re-creates [fetchUser] when [token] changes,
    so a [refreshUser] that a view holds tests the token of the render that
    created it.  [fetchUser_of captured] is that callback; [fetchUser] above
    is the one of the latest render, [fetchUser_of (token w)]. *)
Definition fetchUser_of (captured : option string) (me : Reply Profile) : M unit :=
  λ w,
    if negb (truthy captured) then setLoading false w
    else
      try_catch_finally
        (do data <- api_get "/auth/me" me;
         setUser (Some data))
        (localStorage_removeItem "token";;
         setToken None;;
         setUser None)
        (setLoading false) w.

(** What a settled request hands to the code after its [await]. *)
Definition settle_reply {A} (reply : Reply A) : M A :=
  λ w, (match reply with inl e => Throw e | inr a => Normal a end, w).

(** The callback up to its [await]: the world with the request sent, and
    whether a reply is awaited. *)
Definition fetchUser_send (captured : option string) (w : World) : World * bool :=
  if negb (truthy captured) then (exec (setLoading false) w, false)
  else
    (mkWorld (user w) (token w) (loading w) (localStorage w) (headers w)
             (network w ++ [me_request w]), true).

(** The callback from its [await] on, run in whatever world the reply
    arrives in. *)
Definition fetchUser_receive (me : Reply Profile) (w : World) : World :=
  exec
    (try_catch_finally
       (do data <- settle_reply me;
        setUser (Some data))
       (localStorage_removeItem "token";;
        setToken None;;
        setUser None)
       (setLoading false)) w.

(** Every character is below 128, so the characters of the string are its
    UTF-16 code units. *)
Fixpoint is_ascii_string (s : string) : bool :=
  match s with
  | EmptyString => true
  | String c rest => (Ascii.nat_of_ascii c <? 128)%nat && is_ascii_string rest
  end.

(** * Proofs *)

(** ** Concrete runs *)

(** Reload with a stored token the server accepts: one request, carrying the
    header the first effect has just installed. *)
Example emily_session_run :
  emily_session =
    mkWorld (Some emily) (Some "jwt-emily") false emily_storage
            {["Authorization" := "Bearer jwt-emily"]}
            [mkRequest "GET" "/auth/me" (Some "Bearer jwt-emily") []].
Proof. reflexivity. Qed.

(** A login whose follow-up profile fetch is rejected ends logged out, with
    storage and header cleared again. *)
Example login_then_rejected_run :
  dispatch (mkEvent (CallLogin "superadmin@enterprise.com" "SuperAdmin123"
                       (inr (mkLoginData "jwt-marcus" marcus)))
                    (inl (ErrResponse 401)))
           (bootstrap ∅ (inl ErrNetwork)) =
    mkWorld None None false ∅ ∅
            [mkRequest "POST" "/auth/login" None
               [("email", "superadmin@enterprise.com"); ("password", "SuperAdmin123")];
             mkRequest "GET" "/auth/me" (Some "Bearer jwt-marcus") []].
Proof. reflexivity. Qed.

(** An empty string under the [token] key counts as no token. *)
Example empty_token_run :
  bootstrap {["token" := ""]} (inr emily) =
    mkWorld None (Some "") false {["token" := ""]} ∅ [].
Proof. reflexivity. Qed.

Example super_admin_nav :
  (path <$> filteredNav (Some marcus)) =
    ["/dashboard"; "/crm"; "/projects"; "/hr"; "/finance"; "/subscription"] ∧
  (path <$> filteredAdmin (Some marcus)) = ["/users"; "/audit-logs"].
Proof. by split. Qed.

Example no_user_nav : filteredNav None = [] ∧ filteredAdmin None = [].
Proof. by split. Qed.

(** ** Equations of the operations *)

Lemma Object_is_eq a b : Object_is a b = true ↔ a = b.
Proof.
  destruct a as [x|], b as [y|]; simpl; split; try congruence.
  - intros H. apply String.eqb_eq in H. by subst.
  - intros [= ->]. apply String.eqb_refl.
Qed.

Lemma fetchUser_exec me w :
  exec (fetchUser me) w =
    if truthy (token w) then
      match me with
      | inr data =>
          mkWorld (Some data) (token w) false (localStorage w) (headers w)
                  (network w ++ [me_request w])
      | inl _ =>
          mkWorld None None false (delete "token" (localStorage w)) (headers w)
                  (network w ++ [me_request w])
      end
    else mkWorld (user w) (token w) false (localStorage w) (headers w) (network w).
Proof.
  unfold exec, fetchUser. destruct (truthy (token w)); simpl; [|done].
  by destruct me.
Qed.

(** The three ways [fetchUser] settles: rejected, resolved, no token. *)
Ltac fetchUser_cases me w :=
  rewrite fetchUser_exec;
  destruct (truthy (token w)) eqn:?; [destruct me|]; simpl.

Lemma fetchUser_settles me w : eval (fetchUser me) w = Normal tt.
Proof.
  unfold eval, fetchUser. destruct (truthy (token w)); simpl; [|done].
  by destruct me.
Qed.

Lemma login_exec email password reply w :
  exec (login email password reply) w =
    let rq := mkRequest "POST" "/auth/login" (headers w !! "Authorization")
                        [("email", email); ("password", password)] in
    match reply with
    | inr data =>
        mkWorld (Some (data_user data)) (Some (data_token data)) (loading w)
                (<["token" := data_token data]> (localStorage w)) (headers w)
                (network w ++ [rq])
    | inl _ =>
        mkWorld (user w) (token w) (loading w) (localStorage w) (headers w)
                (network w ++ [rq])
    end.
Proof. by destruct reply. Qed.

Lemma biometricLogin_exec credentialId email reply w :
  exec (biometricLogin credentialId email reply) w =
    let rq := mkRequest "POST" "/auth/biometric/login" (headers w !! "Authorization")
                        [("credential_id", credentialId); ("user_email", email)] in
    match reply with
    | inr data =>
        mkWorld (Some (data_user data)) (Some (data_token data)) (loading w)
                (<["token" := data_token data]> (localStorage w)) (headers w)
                (network w ++ [rq])
    | inl _ =>
        mkWorld (user w) (token w) (loading w) (localStorage w) (headers w)
                (network w ++ [rq])
    end.
Proof. by destruct reply. Qed.

Lemma syncAuthHeader_synced w : headers_synced (syncAuthHeader w).
Proof.
  destruct w as [u [t|] l ls h n]; unfold headers_synced, syncAuthHeader; simpl.
  - destruct t; simpl.
    + apply lookup_delete_eq.
    + apply lookup_insert_eq.
  - apply lookup_delete_eq.
Qed.

Lemma syncAuthHeader_fields w :
  user (syncAuthHeader w) = user w ∧ token (syncAuthHeader w) = token w ∧
  loading (syncAuthHeader w) = loading w ∧
  localStorage (syncAuthHeader w) = localStorage w ∧
  network (syncAuthHeader w) = network w.
Proof. unfold syncAuthHeader. by destruct (truthy (token w)). Qed.

Lemma truthy_Some t : truthy (Some t) = true ↔ t ≠ "".
Proof.
  simpl. destruct (String.eqb_spec t ""); simpl; split; congruence.
Qed.

(** ** [loading] is cleared by every settlement and never set again *)

Lemma fetchUser_loading me w : loading (exec (fetchUser me) w) = false.
Proof. by fetchUser_cases me w. Qed.

Lemma effects_loading me w : loading (effects me w) = false.
Proof. apply fetchUser_loading. Qed.

Lemma commit_loading prev me w :
  loading w = false → loading (commit prev me w) = false.
Proof.
  intros H. unfold commit. destruct (Object_is prev (token w)); [done|].
  destruct (Object_is _ _); apply effects_loading.
Qed.

Lemma perform_loading a me w :
  loading w = false → loading (perform a me w) = false.
Proof.
  intros H. destruct a as [e p reply | c e reply | | ]; simpl.
  - rewrite login_exec. by destruct reply.
  - rewrite biometricLogin_exec. by destruct reply.
  - done.
  - apply fetchUser_loading.
Qed.

Lemma dispatch_loading ev w : loading w = false → loading (dispatch ev w) = false.
Proof. intros H. by apply commit_loading, perform_loading. Qed.

Lemma bootstrap_loading storage me : loading (bootstrap storage me) = false.
Proof. apply commit_loading, effects_loading. Qed.

Lemma run_loading evs w : loading w = false → loading (run evs w) = false.
Proof.
  revert w. induction evs as [|ev evs IH]; intros w H; simpl; [done|].
  by apply IH, dispatch_loading.
Qed.

(** ** Token and user are present together *)

Lemma fetchUser_session_ok me w :
  session_ok w → session_ok (exec (fetchUser me) w).
Proof.
  unfold session_ok. intros H. rewrite fetchUser_exec.
  destruct (truthy (token w)) eqn:E; simpl; [|by rewrite E].
  destruct me; simpl; [done|]. by rewrite E.
Qed.

Lemma fetchUser_establishes me w :
  user w = None → session_ok (exec (fetchUser me) w).
Proof.
  unfold session_ok. intros H. rewrite fetchUser_exec.
  destruct (truthy (token w)) eqn:E; simpl.
  - destruct me; simpl; [done|]. by rewrite E.
  - by rewrite E, H.
Qed.

Lemma effects_session_ok me w : session_ok w → session_ok (effects me w).
Proof.
  intros H. apply fetchUser_session_ok. unfold session_ok in *.
  destruct (syncAuthHeader_fields w) as (-> & -> & _). done.
Qed.

Lemma commit_session_ok prev me w :
  session_ok w → session_ok (commit prev me w).
Proof.
  intros H. unfold commit. destruct (Object_is prev (token w)); [done|].
  destruct (Object_is _ _); auto using effects_session_ok.
Qed.

Lemma perform_session_ok a me w :
  action_wf a = true → session_ok w → session_ok (perform a me w).
Proof.
  intros Hwf H. destruct a as [e p reply | c e reply | | ]; simpl in *.
  - rewrite login_exec. destruct reply as [err|d]; simpl; [done|].
    unfold session_ok; simpl. simpl in Hwf. by rewrite Hwf.
  - rewrite biometricLogin_exec. destruct reply as [err|d]; simpl; [done|].
    unfold session_ok; simpl. simpl in Hwf. by rewrite Hwf.
  - done.
  - by apply fetchUser_session_ok.
Qed.

Lemma dispatch_session_ok ev w :
  event_wf ev = true → session_ok w → session_ok (dispatch ev w).
Proof. intros Hwf H. by apply commit_session_ok, perform_session_ok. Qed.

Lemma bootstrap_session_ok storage me : session_ok (bootstrap storage me).
Proof.
  apply commit_session_ok, fetchUser_establishes.
  by destruct (syncAuthHeader_fields (mount storage)) as (-> & _).
Qed.

Lemma run_session_ok evs w :
  forallb event_wf evs = true → session_ok w → session_ok (run evs w).
Proof.
  revert w. induction evs as [|ev evs IH]; intros w Hwf H; simpl in *; [done|].
  apply andb_prop in Hwf as [Hev Hevs]. by apply IH, dispatch_session_ok.
Qed.

Lemma session_ok_inv w : session_ok w → session_inv w.
Proof.
  unfold session_ok, session_inv, status. intros H.
  destruct (loading w); [by split|].
  destruct (user w) as [u|]; simpl in *; by split.
Qed.

(** ** The Authorization header follows the token *)

Lemma synced_request_ok w (method url : string) body :
  headers_synced w →
  authorization_ok (mkRequest method url (headers w !! "Authorization") body).
Proof.
  unfold headers_synced, authorization_ok; simpl. intros ->.
  destruct (token w) as [t|]; [|done].
  destruct (String.eqb_spec t ""); [done|]. by exists t.
Qed.

Lemma headers_synced_ext w w' :
  headers w' = headers w → token w' = token w → headers_synced w → headers_synced w'.
Proof. unfold headers_synced. by intros -> ->. Qed.

Lemma fetchUser_headers me w : headers (exec (fetchUser me) w) = headers w.
Proof. by fetchUser_cases me w. Qed.

Lemma fetchUser_token me w :
  token (exec (fetchUser me) w) = token w ∨ token (exec (fetchUser me) w) = None.
Proof.
  fetchUser_cases me w; [by right|by left|by left].
Qed.

Lemma fetchUser_network_ok me w :
  headers_synced w → Forall authorization_ok (network w) →
  Forall authorization_ok (network (exec (fetchUser me) w)).
Proof.
  intros Hs Hn. rewrite fetchUser_exec.
  assert (Forall authorization_ok (network w ++ [me_request w])).
  { apply Forall_app; split; [done|]. apply Forall_singleton.
    by apply synced_request_ok. }
  destruct (truthy (token w)); [|done]. by destruct me.
Qed.

(** After the header effect, a [fetchUser] that keeps the token keeps the
    header in step; one that clears it leaves the header stale until the
    next render. *)
Lemma effects_wire me w :
  Forall authorization_ok (network w) →
  Forall authorization_ok (network (effects me w)) ∧
  (token (effects me w) = token w → headers_synced (effects me w)).
Proof.
  intros Hn. unfold effects.
  pose proof (syncAuthHeader_synced w) as Hs.
  destruct (syncAuthHeader_fields w) as (_ & Ht & _ & _ & Hnet).
  split.
  - apply fetchUser_network_ok; [done|]. by rewrite Hnet.
  - intros E. eapply headers_synced_ext; [apply fetchUser_headers| |exact Hs].
    by rewrite E.
Qed.

Lemma effects_no_token me w :
  token w = None → token (effects me w) = None.
Proof.
  intros H. unfold effects.
  destruct (syncAuthHeader_fields w) as (_ & Ht & _).
  destruct (fetchUser_token me (syncAuthHeader w)) as [E|E]; [|done].
  by rewrite E, Ht.
Qed.

Lemma effects_token me w :
  token (effects me w) = token w ∨ token (effects me w) = None.
Proof.
  unfold effects. destruct (syncAuthHeader_fields w) as (_ & Ht & _).
  destruct (fetchUser_token me (syncAuthHeader w)) as [E|E]; [left|by right].
  by rewrite E.
Qed.

Lemma commit_wire prev me w :
  Forall authorization_ok (network w) →
  (prev = token w → headers_synced w) →
  wire_ok (commit prev me w).
Proof.
  intros Hn Hs. unfold commit.
  destruct (Object_is prev (token w)) eqn:E.
  { apply Object_is_eq in E. by split; auto. }
  destruct (effects_wire me w Hn) as [Hn1 Hs1].
  destruct (Object_is (token w) (token (effects me w))) eqn:E1.
  { apply Object_is_eq in E1. by split; auto. }
  destruct (effects_wire me (effects me w) Hn1) as [Hn2 Hs2].
  split; [|done]. apply Hs2.
  destruct (effects_token me w) as [Ht|Ht].
  - rewrite Ht in E1. destruct (token w) as [t|]; simpl in E1; [|done].
    by rewrite String.eqb_refl in E1.
  - rewrite Ht. by apply effects_no_token.
Qed.

Lemma perform_wire a me w :
  wire_ok w →
  Forall authorization_ok (network (perform a me w)) ∧
  headers (perform a me w) = headers w.
Proof.
  intros [Hs Hn].
  assert (∀ (m u : string) b,
    Forall authorization_ok
      (network w ++ [mkRequest m u (headers w !! "Authorization") b])) as Hrq.
  { intros. apply Forall_app; split; [done|]. apply Forall_singleton.
    by apply synced_request_ok. }
  destruct a as [e p reply | c e reply | | ]; simpl.
  - rewrite login_exec. destruct reply; simpl; split; auto.
  - rewrite biometricLogin_exec. destruct reply; simpl; split; auto.
  - by split.
  - split; [by apply fetchUser_network_ok | apply fetchUser_headers].
Qed.

Lemma dispatch_wire ev w : wire_ok w → wire_ok (dispatch ev w).
Proof.
  intros Hw. destruct (perform_wire (ev_action ev) (ev_me ev) w Hw) as [Hn Hh].
  apply commit_wire; [done|]. intros E.
  eapply headers_synced_ext; [exact Hh|done|apply Hw].
Qed.

Lemma bootstrap_wire storage me : wire_ok (bootstrap storage me).
Proof.
  unfold bootstrap.
  destruct (effects_wire me (mount storage)) as [Hn Hs]; [by constructor|].
  apply commit_wire; [done|]. intros E. by apply Hs.
Qed.

Lemma run_wire evs w : wire_ok w → wire_ok (run evs w).
Proof.
  revert w. induction evs as [|ev evs IH]; intros w H; simpl; [done|].
  by apply IH, dispatch_wire.
Qed.

Lemma Object_is_refl a : Object_is a a = true.
Proof. by apply Object_is_eq. Qed.

Lemma truthy_not_None t : truthy t = true → Object_is t None = false.
Proof. by destruct t. Qed.

(** A failed [fetchUser], of whatever kind, followed by the render it causes. *)
Lemma refresh_failure_dispatch e w :
  truthy (token w) = true →
  dispatch (mkEvent CallRefreshUser (inl e)) w =
    mkWorld None None false (delete "token" (localStorage w))
            (delete "Authorization" (headers w)) (network w ++ [me_request w]).
Proof.
  intros H. unfold dispatch, commit; simpl.
  rewrite fetchUser_exec, H; simpl. by rewrite truthy_not_None.
Qed.

Lemma refresh_failure_exec e w :
  truthy (token w) = true →
  exec (fetchUser (inl e)) w =
    mkWorld None None false (delete "token" (localStorage w)) (headers w)
            (network w ++ [me_request w]).
Proof. intros H. by rewrite fetchUser_exec, H. Qed.

(** ** Session store *)

(** The callback of the latest render is [fetchUser]. *)
Lemma fetchUser_fresh me w : fetchUser me w = fetchUser_of (token w) me w.
Proof. done. Qed.

(** A callback call is its two halves, run back to back. *)
Lemma fetchUser_of_split captured me w :
  exec (fetchUser_of captured me) w =
    let '(w1, awaited) := fetchUser_send captured w in
    if awaited then fetchUser_receive me w1 else w1.
Proof.
  unfold fetchUser_of, fetchUser_send, exec.
  destruct (truthy captured); simpl; [|done]. by destruct me.
Qed.

(** C1, as stated, fails, in two ways.  A [logout()] that runs while a
    [refresh()] awaits [/auth/me] is followed by [setUser(res.data)] once the
    reply arrives: from the authenticated session of the demo employee this
    ends with a user, no token, status authenticated.  And a login reply
    whose token is the empty string leaves a user with a token that counts as
    absent. *)
Lemma session_invariant_fails_on_overlap :
  (let sent := fetchUser_send (token emily_session) emily_session in
   let w2 := dispatch (mkEvent CallLogout (inl ErrNetwork)) (fst sent) in
   let w3 := fetchUser_receive (inr emily) w2 in
   session_inv emily_session ∧ snd sent = true ∧
   status w3 = Authenticated ∧ user w3 = Some emily ∧ token w3 = None ∧
   ¬ session_inv w3) ∧
  (let w4 := dispatch (mkEvent (CallLogin "employee@enterprise.com" "Employee123"
                                  (inr (mkLoginData "" emily))) (inr emily))
                      (bootstrap ∅ (inl ErrNetwork)) in
   status w4 = Authenticated ∧ user w4 = Some emily ∧ truthy (token w4) = false ∧
   ¬ session_inv w4).
Proof.
  split.
  - repeat split; try reflexivity; try discriminate.
    intros [H _]. by destruct (H eq_refl).
  - repeat split; try reflexivity.
    intros [H _]. by destruct (H eq_refl).
Qed.

(** C1, amended.  When each call is made through the callback of the latest
    render and settles, with the render it causes and its [/auth/me] reply,
    before the next call begins, and the login endpoints issue non-empty
    tokens: every state reached from a settled bootstrap by any sequence of
    [login], [biometricLogin], [logout] and [refreshUser] calls is not
    loading and satisfies the session invariant (authenticated implies token
    and user present, anonymous implies both absent), and one more such call,
    with or without the render it causes, keeps the invariant. *)
Theorem session_invariant_reachable storage me evs ev :
  forallb event_wf evs = true →
  event_wf ev = true →
  let w := run evs (bootstrap storage me) in
  status w ≠ Loading ∧
  session_inv w ∧
  session_inv (perform (ev_action ev) (ev_me ev) w) ∧
  session_inv (dispatch ev w).
Proof.
  intros Hevs Hev w.
  assert (session_ok w) as Hok
    by (apply run_session_ok; [done | apply bootstrap_session_ok]).
  assert (loading w = false) as Hl
    by (apply run_loading, bootstrap_loading).
  split; [by unfold status; rewrite Hl; destruct (truthy_obj _)|].
  split; [by apply session_ok_inv|].
  split; apply session_ok_inv.
  - by apply perform_session_ok.
  - by apply dispatch_session_ok.
Qed.

Lemma session_invariant_reachable_witness :
  let w := run [mkEvent CallLogout (inl ErrNetwork);
                mkEvent (CallLogin "superadmin@enterprise.com" "SuperAdmin123"
                           (inr (mkLoginData "jwt-marcus" marcus))) (inr marcus)]
               (bootstrap emily_storage (inr emily)) in
  let ev := mkEvent CallRefreshUser (inl (ErrResponse 401)) in
  status w ≠ Loading ∧
  session_inv w ∧
  session_inv (perform (ev_action ev) (ev_me ev) w) ∧
  session_inv (dispatch ev w).
Proof.
  apply (session_invariant_reachable emily_storage (inr emily)
           [mkEvent CallLogout (inl ErrNetwork);
            mkEvent (CallLogin "superadmin@enterprise.com" "SuperAdmin123"
                       (inr (mkLoginData "jwt-marcus" marcus))) (inr marcus)]
           (mkEvent CallRefreshUser (inl (ErrResponse 401)))); reflexivity.
Defined.

(** C2. When [refresh()] starts with a token [T] and [/auth/me] is rejected
    with an authorization error, the session ends anonymous with user and
    token cleared, and the [token] key is gone from durable storage; the
    render that follows also drops the Authorization header. *)
Theorem refresh_rejected_clears_session w T e :
  token w = Some T →
  T ≠ "" →
  authorization_error e = true →
  let w1 := exec (fetchUser (inl e)) w in
  let w2 := dispatch (mkEvent CallRefreshUser (inl e)) w in
  (status w1 = Anonymous ∧ user w1 = None ∧ token w1 = None ∧
   localStorage w1 !! "token" = None ∧ localStorage w1 !! "token" ≠ Some T) ∧
  (status w2 = Anonymous ∧ user w2 = None ∧ token w2 = None ∧
   localStorage w2 !! "token" = None ∧ headers w2 !! "Authorization" = None).
Proof.
  intros Ht HT _ w1 w2.
  assert (truthy (token w) = true) as H by (rewrite Ht; by apply truthy_Some).
  subst w1 w2. rewrite refresh_failure_exec, refresh_failure_dispatch by done.
  simpl. rewrite !lookup_delete_eq. by repeat split.
Qed.

Lemma refresh_rejected_clears_session_witness :
  let w1 := exec (fetchUser (inl (ErrResponse 401))) emily_session in
  let w2 := dispatch (mkEvent CallRefreshUser (inl (ErrResponse 401))) emily_session in
  (status w1 = Anonymous ∧ user w1 = None ∧ token w1 = None ∧
   localStorage w1 !! "token" = None ∧ localStorage w1 !! "token" ≠ Some "jwt-emily") ∧
  (status w2 = Anonymous ∧ user w2 = None ∧ token w2 = None ∧
   localStorage w2 !! "token" = None ∧ headers w2 !! "Authorization" = None).
Proof.
  apply (refresh_rejected_clears_session emily_session "jwt-emily" (ErrResponse 401));
    [reflexivity | discriminate | reflexivity].
Defined.

(** A reload with a stored token the server accepts, in full. *)
Lemma bootstrap_success storage T data :
  storage !! "token" = Some T →
  T ≠ "" →
  bootstrap storage (inr data) =
    mkWorld (Some data) (Some T) false storage
            (<["Authorization" := "Bearer " ++ T]> ∅)
            [mkRequest "GET" "/auth/me" (Some ("Bearer " ++ T)) []].
Proof.
  intros Hs HT. apply truthy_Some in HT.
  unfold bootstrap, commit, effects. rewrite fetchUser_exec.
  destruct (syncAuthHeader_fields (mount storage)) as (Hu & Ht & Hl & Hls & Hn).
  rewrite Ht, Hls, Hn. unfold mount at 1 2 3 4 5; simpl.
  rewrite Hs, HT. unfold me_request. simpl. rewrite String.eqb_refl.
  unfold syncAuthHeader, mount; simpl. rewrite Hs, HT; simpl.
  by rewrite lookup_insert_eq.
Qed.

(** C3, as stated, fails: from the authenticated session of the demo
    employee, a [refresh()] that fails for lack of a network reply does not
    leave the session unchanged; it removes the token from durable storage
    and ends anonymous. *)
Lemma refresh_network_failure_changes_session :
  status emily_session = Authenticated ∧
  token emily_session = Some "jwt-emily" ∧
  localStorage emily_session !! "token" = Some "jwt-emily" ∧
  let w' := exec (fetchUser (inl ErrNetwork)) emily_session in
  ¬ (user w' = user emily_session ∧ token w' = token emily_session ∧
     localStorage w' = localStorage emily_session) ∧
  status w' = Anonymous ∧
  localStorage w' !! "token" = None.
Proof.
  repeat split; try reflexivity.
  intros (Hu & _). discriminate Hu.
Qed.

(** C3, amended. A [refresh()] from a session holding a token that fails by
    a network or transport failure clears the session exactly as a rejection
    by the server does: user and token absent, the [token] key removed from
    durable storage, status anonymous. *)
Theorem refresh_network_failure_clears w T :
  token w = Some T →
  T ≠ "" →
  let w1 := exec (fetchUser (inl ErrNetwork)) w in
  status w1 = Anonymous ∧ user w1 = None ∧ token w1 = None ∧
  localStorage w1 !! "token" = None ∧
  w1 = exec (fetchUser (inl (ErrResponse 401))) w.
Proof.
  intros Ht HT w1.
  assert (truthy (token w) = true) as H by (rewrite Ht; by apply truthy_Some).
  subst w1. rewrite !refresh_failure_exec by done.
  simpl. rewrite lookup_delete_eq. by repeat split.
Qed.

Lemma refresh_network_failure_clears_witness :
  let w1 := exec (fetchUser (inl ErrNetwork)) emily_session in
  status w1 = Anonymous ∧ user w1 = None ∧ token w1 = None ∧
  localStorage w1 !! "token" = None ∧
  w1 = exec (fetchUser (inl (ErrResponse 401))) emily_session.
Proof.
  apply (refresh_network_failure_clears emily_session "jwt-emily");
    [reflexivity | discriminate].
Defined.

(** C4. For a token [T] in durable storage before startup, when the
    bootstrap [refresh()] succeeds the session is authenticated, holds [T],
    and its profile is exactly the object the server answered; the same
    holds for any later successful [refresh()] of a session holding [T]. *)
Theorem refresh_success_sets_profile storage T data w :
  storage !! "token" = Some T →
  T ≠ "" →
  token w = Some T →
  let w0 := bootstrap storage (inr data) in
  let w1 := exec (fetchUser (inr data)) w in
  (status w0 = Authenticated ∧ user w0 = Some data ∧ token w0 = Some T ∧
   localStorage w0 = storage) ∧
  (status w1 = Authenticated ∧ user w1 = Some data ∧ token w1 = Some T ∧
   localStorage w1 = localStorage w).
Proof.
  intros Hs HT Ht w0 w1. subst w0 w1.
  rewrite (bootstrap_success storage T data Hs HT).
  rewrite fetchUser_exec, Ht. apply truthy_Some in HT. rewrite HT.
  by repeat split.
Qed.

Lemma refresh_success_sets_profile_witness :
  let w0 := bootstrap emily_storage (inr emily) in
  let w1 := exec (fetchUser (inr emily)) emily_session in
  (status w0 = Authenticated ∧ user w0 = Some emily ∧ token w0 = Some "jwt-emily" ∧
   localStorage w0 = emily_storage) ∧
  (status w1 = Authenticated ∧ user w1 = Some emily ∧ token w1 = Some "jwt-emily" ∧
   localStorage w1 = localStorage emily_session).
Proof.
  apply (refresh_success_sets_profile emily_storage "jwt-emily" emily emily_session);
    [reflexivity | discriminate | reflexivity].
Defined.

(** C5. A [login(email, password)] that fails, whatever the failure, throws
    that error to its caller and leaves user, token, durable storage, loading
    flag and default headers as they were; no effect runs afterwards. *)
Theorem login_failure_leaves_session email password e me w :
  let w1 := exec (login email password (inl e)) w in
  let w2 := dispatch (mkEvent (CallLogin email password (inl e)) me) w in
  eval (login email password (inl e)) w = Throw e ∧
  (user w1 = user w ∧ token w1 = token w ∧ localStorage w1 = localStorage w ∧
   loading w1 = loading w ∧ headers w1 = headers w) ∧
  w2 = w1.
Proof.
  intros w1 w2. subst w1 w2. split; [done|]. split; [done|].
  unfold dispatch, commit; simpl. by rewrite Object_is_refl.
Qed.




(** C9. After the header effect the default headers hold
    [Authorization: Bearer <token>] exactly when the token is present and
    hold no [Authorization] entry at all otherwise, the token itself being
    untouched; in every state reached from the bootstrap by [login],
    [biometricLogin], [logout] and [refreshUser] the header agrees with the
    token in this way, and no request in the log carries an empty
    credential. *)
Theorem authorization_header_follows_token w storage me evs :
  let w1 := syncAuthHeader w in
  let w2 := run evs (bootstrap storage me) in
  token w1 = token w ∧
  headers w1 !! "Authorization" =
    (if truthy (token w) then Some (Bearer (token w)) else None) ∧
  headers_synced w1 ∧
  headers_synced w2 ∧
  Forall authorization_ok (network w2).
Proof.
  intros w1 w2. subst w1 w2.
  split; [apply syncAuthHeader_fields|].
  split.
  { unfold syncAuthHeader. destruct (truthy (token w)); simpl.
    - apply lookup_insert_eq.
    - apply lookup_delete_eq. }
  split; [apply syncAuthHeader_synced|].
  apply run_wire, bootstrap_wire.
Qed.

(** C10. Every settlement of [fetchUser] (no token, profile fetched,
    fetch failed) completes normally with [loading] false; hence in every
    state reached after the bootstrap has settled the status is not loading
    and [ProtectedRoute] either renders the view in the shell or redirects to
    the login view. *)
Theorem bootstrap_always_settles {V} storage me evs (v : V) me' w :
  let w' := run evs (bootstrap storage me) in
  eval (fetchUser me') w = Normal tt ∧
  loading (exec (fetchUser me') w) = false ∧
  loading w' = false ∧
  status w' ≠ Loading ∧
  (ProtectedRoute w' v = AppShell v ∨ ProtectedRoute w' v = Navigate "/login" true).
Proof.
  intros w'.
  assert (loading w' = false) as Hl by apply run_loading, bootstrap_loading.
  split; [apply fetchUser_settles|].
  split; [apply fetchUser_loading|].
  split; [done|].
  unfold status, ProtectedRoute. rewrite Hl.
  destruct (user w'); simpl; split; auto; discriminate.
Qed.

(** ** Route guard *)

(** C6. [ProtectedRoute] is the decision table over the status: a waiting
    indicator while loading (never the protected view), a redirect to
    [/login] when anonymous, the requested view inside the shell when
    authenticated; replacing the role of the session's profile changes
    neither the status nor the decision. *)
Theorem ProtectedRoute_decides_on_status {V} w (v : V) p r :
  ProtectedRoute w v = RouteGuard (status w) v ∧
  ProtectedRoute (exec (setLoading true) w) v = Spinner ∧
  status (exec (setUser (Some (with_role r p))) w) = status (exec (setUser (Some p)) w) ∧
  ProtectedRoute (exec (setUser (Some (with_role r p))) w) v =
    ProtectedRoute (exec (setUser (Some p)) w) v.
Proof.
  unfold ProtectedRoute, status. repeat split.
  destruct (loading w); [done|]. by destruct (user w).
Qed.

(** ** Role-scoped navigation *)

Lemma includes_elem_of arr (r : string) : includes arr (Some r) = true ↔ r ∈ arr.
Proof.
  induction arr as [|x arr IH]; simpl.
  - split; [done|]. by intros ?%elem_of_nil.
  - rewrite elem_of_cons. destruct (String.eqb_spec x r) as [->|Hne].
    + split; auto.
    + rewrite IH. split; [auto|]. intros [->|?]; [done|auto].
Qed.

Section array_filter.
Context {A : Type} (callback : A → bool).

Lemma Array_filter_sublist arr : Array_filter callback arr `sublist_of` arr.
Proof.
  induction arr as [|x arr IH]; simpl; [constructor|].
  destruct (callback x); by constructor.
Qed.

Lemma Array_filter_elem_of arr x :
  x ∈ Array_filter callback arr ↔ x ∈ arr ∧ callback x = true.
Proof.
  induction arr as [|y arr IH]; simpl.
  - split; [by intros ?%elem_of_nil | by intros [?%elem_of_nil _]].
  - destruct (callback y) eqn:E; rewrite ?elem_of_cons, IH, ?elem_of_cons.
    + split; [intros [->|[? ?]]; auto | intros [[->|?] ?]; auto].
    + split; [intros [? ?]; auto | intros [[->|?] ?]; [congruence|auto]].
Qed.

(** Every sub-sequence of kept elements survives the filter. *)
Lemma Array_filter_greatest arr l :
  l `sublist_of` arr → Forall (λ x, callback x = true) l →
  l `sublist_of` Array_filter callback arr.
Proof.
  intros Hsub.
  induction Hsub as [|x l1 l2 Hsub IH|x l1 l2 Hsub IH]; intros Hall; simpl.
  - constructor.
  - apply Forall_cons in Hall as [Hx Hall]. rewrite Hx. constructor. by apply IH.
  - destruct (callback x); [constructor|]; by apply IH.
Qed.
End array_filter.

(** C7. For a role [r] and a list of navigation entries, the filter
    returns a sub-sequence of the list, in the list's order, that holds
    exactly the entries whose [roles] contain [r]: every sub-sequence of
    allowed entries is a sub-sequence of it.  For the role [employee] the
    visible entries are Dashboard, Projects, HR, Finance and Subscription;
    CRM is not among them and the administration section, where Users lives,
    is empty. *)
Theorem filterByRole_subsequence items (r : string) l p :
  l `sublist_of` items →
  Forall (λ n, r ∈ roles n) l →
  let out := filterByRole items (Some r) in
  out `sublist_of` items ∧
  (∀ n, n ∈ out ↔ n ∈ items ∧ r ∈ roles n) ∧
  l `sublist_of` out ∧
  (label <$> filteredNav (Some (with_role "employee" p))) =
    ["Dashboard"; "Projects"; "HR"; "Finance"; "Subscription"] ∧
  filteredAdmin (Some (with_role "employee" p)) = [] ∧
  ("CRM" ∉ (label <$> filteredNav (Some (with_role "employee" p)))) ∧
  ("Users" ∉ (label <$> (filteredNav (Some (with_role "employee" p)) ++
                         filteredAdmin (Some (with_role "employee" p)))%list)).
Proof.
  intros Hsub Hall out. subst out. unfold filterByRole.
  split; [apply Array_filter_sublist|].
  split.
  { intros n. rewrite Array_filter_elem_of. by rewrite includes_elem_of. }
  split.
  { apply Array_filter_greatest; [done|].
    eapply Forall_impl; [exact Hall|]. intros n Hn. by apply includes_elem_of. }
  assert (filteredNav (Some (with_role "employee" p)) =
          filterByRole NAV_ITEMS (Some "employee")) as -> by done.
  assert (filteredAdmin (Some (with_role "employee" p)) = []) as -> by done.
  split; [done|]. split; [done|].
  split; vm_compute; intros H;
    repeat (apply elem_of_cons in H as [H|H]; [discriminate H|]);
    by apply elem_of_nil in H.
Qed.

Lemma filterByRole_subsequence_witness :
  let l := [mkNavItem "/hr" "HR" "Building2"
              ["super_admin"; "main_handler"; "admin"; "employee"]] in
  let out := filterByRole NAV_ITEMS (Some "employee") in
  out `sublist_of` NAV_ITEMS ∧
  (∀ n, n ∈ out ↔ n ∈ NAV_ITEMS ∧ "employee" ∈ roles n) ∧
  l `sublist_of` out ∧
  (label <$> filteredNav (Some (with_role "employee" emily))) =
    ["Dashboard"; "Projects"; "HR"; "Finance"; "Subscription"] ∧
  filteredAdmin (Some (with_role "employee" emily)) = [] ∧
  ("CRM" ∉ (label <$> filteredNav (Some (with_role "employee" emily)))) ∧
  ("Users" ∉ (label <$> (filteredNav (Some (with_role "employee" emily)) ++
                         filteredAdmin (Some (with_role "employee" emily)))%list)).
Proof.
  apply (filterByRole_subsequence NAV_ITEMS "employee"
           [mkNavItem "/hr" "HR" "Building2"
              ["super_admin"; "main_handler"; "admin"; "employee"]] emily).
  - unfold NAV_ITEMS. do 3 apply sublist_cons. apply sublist_skip.
    do 2 apply sublist_cons. apply sublist_nil.
  - apply Forall_singleton. simpl. set_solver.
Defined.

(** * Further properties of the session store *)

(** ** Durable storage mirrors the token *)

Lemma fetchUser_agrees me w :
  storage_agrees w → storage_agrees (exec (fetchUser me) w).
Proof.
  unfold storage_agrees. intros H. fetchUser_cases me w; [|done|done].
  apply lookup_delete_eq.
Qed.

Lemma effects_agrees me w : storage_agrees w → storage_agrees (effects me w).
Proof.
  intros H. apply fetchUser_agrees. unfold storage_agrees in *.
  by destruct (syncAuthHeader_fields w) as (_ & -> & _ & -> & _).
Qed.

Lemma commit_agrees prev me w :
  storage_agrees w → storage_agrees (commit prev me w).
Proof.
  intros H. unfold commit. destruct (Object_is prev (token w)); [done|].
  destruct (Object_is _ _); auto using effects_agrees.
Qed.

Lemma perform_agrees a me w :
  storage_agrees w → storage_agrees (perform a me w).
Proof.
  unfold storage_agrees. intros H.
  destruct a as [e p reply | c e reply | | ]; simpl.
  - rewrite login_exec. destruct reply; simpl; [done|apply lookup_insert_eq].
  - rewrite biometricLogin_exec. destruct reply; simpl; [done|apply lookup_insert_eq].
  - apply lookup_delete_eq.
  - by apply fetchUser_agrees.
Qed.

Lemma bootstrap_agrees storage me : storage_agrees (bootstrap storage me).
Proof. by apply commit_agrees, effects_agrees. Qed.

Lemma run_agrees evs w : storage_agrees w → storage_agrees (run evs w).
Proof.
  revert w. induction evs as [|ev evs IH]; intros w H; simpl; [done|].
  by apply IH, commit_agrees, perform_agrees.
Qed.

(** X1. In every state reached from the bootstrap by calls on the context
    value, the [token] key of durable storage holds exactly the session's
    token, and is absent when the session has none. *)
Theorem storage_mirrors_token storage me evs :
  let w := run evs (bootstrap storage me) in
  localStorage w !! "token" = token w.
Proof. apply run_agrees, bootstrap_agrees. Qed.

(** ** Reload *)

Lemma bootstrap_without_token storage me :
  truthy (storage !! "token") = false →
  bootstrap storage me = mkWorld None (storage !! "token") false storage ∅ [].
Proof.
  intros H. unfold bootstrap, commit, effects. rewrite fetchUser_exec.
  destruct (syncAuthHeader_fields (mount storage)) as (Hu & Ht & Hl & Hls & Hn).
  rewrite Ht, Hu, Hls, Hn. unfold mount at 1 2 3 4 5 6; simpl.
  rewrite H. simpl. rewrite Object_is_refl.
  unfold syncAuthHeader, mount; simpl. by rewrite H.
Qed.

(** X2. Reloading the page resumes the session from any state in which the
    [token] key of durable storage holds the session's token and the token is
    present exactly when a user is.  If a user is logged in and [/auth/me]
    answers that user's profile, the reloaded session is authenticated with
    the same user, token and storage; if no user is logged in, the reloaded
    session is anonymous and the reload sends no request at all. *)
Theorem reload_resumes_session w me' :
  storage_agrees w →
  session_ok w →
  match user w with
  | Some u =>
      let w' := bootstrap (localStorage w) (inr u) in
      user w' = Some u ∧ token w' = token w ∧ localStorage w' = localStorage w ∧
      status w' = Authenticated
  | None =>
      let w' := bootstrap (localStorage w) me' in
      user w' = None ∧ network w' = [] ∧ localStorage w' = localStorage w ∧
      status w' = Anonymous
  end.
Proof.
  unfold session_ok, storage_agrees. intros Hag Hok.
  destruct (user w) as [u|]; simpl in *.
  - destruct (token w) as [T|] eqn:Ht; [|done].
    apply truthy_Some in Hok.
    by rewrite (bootstrap_success (localStorage w) T u Hag Hok).
  - rewrite bootstrap_without_token by (by rewrite Hag). done.
Qed.

Lemma reload_resumes_session_witness :
  let w := dispatch (mkEvent (CallLogin "superadmin@enterprise.com" "SuperAdmin123"
                                (inr (mkLoginData "jwt-marcus" marcus))) (inr marcus))
                    emily_session in
  let w' := bootstrap (localStorage w) (inr marcus) in
  user w' = Some marcus ∧ token w' = token w ∧ localStorage w' = localStorage w ∧
  status w' = Authenticated.
Proof.
  apply (reload_resumes_session
           (dispatch (mkEvent (CallLogin "superadmin@enterprise.com" "SuperAdmin123"
                                 (inr (mkLoginData "jwt-marcus" marcus))) (inr marcus))
                     emily_session)
           (inl ErrNetwork)); reflexivity.
Defined.

(** ** The credential of a profile request *)










(** ** Login, in full *)

(** The two effects of a render, in closed form. *)
Lemma effects_present me w :
  truthy (token w) = true →
  effects me w =
    let rq := mkRequest "GET" "/auth/me" (Some (Bearer (token w))) [] in
    let h := <["Authorization" := Bearer (token w)]> (headers w) in
    match me with
    | inr data => mkWorld (Some data) (token w) false (localStorage w) h (network w ++ [rq])
    | inl _ => mkWorld None None false (delete "token" (localStorage w)) h (network w ++ [rq])
    end.
Proof.
  destruct w as [u t l ls h n]. cbn [token]. intros H.
  unfold effects, syncAuthHeader. cbn [token]. rewrite H.
  rewrite fetchUser_exec. cbn. rewrite H. unfold me_request. cbn.
  rewrite lookup_insert_eq. by destruct me.
Qed.

Lemma effects_absent me w :
  truthy (token w) = false →
  effects me w =
    mkWorld (user w) (token w) false (localStorage w)
            (delete "Authorization" (headers w)) (network w).
Proof.
  destruct w as [u t l ls h n]. cbn [token]. intros H.
  unfold effects, syncAuthHeader. cbn [token]. rewrite H.
  rewrite fetchUser_exec. cbn. by rewrite H.
Qed.

Lemma Object_is_ne a b : a ≠ b → Object_is a b = false.
Proof.
  intros H. destruct (Object_is a b) eqn:E; [|done].
  by apply Object_is_eq in E.
Qed.



(** X5. A [biometricLogin] that fails throws that error to its caller, runs
    no effect, and leaves user, token, durable storage, loading flag and
    headers as they were; whatever the reply, it leaves the session exactly
    as [login] would on the same reply, the two differing only in the request
    they send. *)
Theorem biometricLogin_failure_leaves_session credentialId email email' password
    reply e me w :
  let w1 := dispatch (mkEvent (CallBiometricLogin credentialId email (inl e)) me) w in
  let wb := exec (biometricLogin credentialId email reply) w in
  let wl := exec (login email' password reply) w in
  eval (biometricLogin credentialId email (inl e)) w = Throw e ∧
  (user w1 = user w ∧ token w1 = token w ∧ localStorage w1 = localStorage w ∧
   loading w1 = loading w ∧ headers w1 = headers w) ∧
  (user wb = user wl ∧ token wb = token wl ∧ localStorage wb = localStorage wl ∧
   loading wb = loading wl ∧ headers wb = headers wl) ∧
  network wb =
    (network w ++
       [mkRequest "POST" "/auth/biometric/login" (headers w !! "Authorization")
          [("credential_id", credentialId); ("user_email", email)]])%list.
Proof.
  intros w1 wb wl. subst w1 wb wl. split; [done|]. split.
  { unfold dispatch, commit; simpl. by rewrite Object_is_refl. }
  rewrite biometricLogin_exec, login_exec. by destruct reply.
Qed.

(** X6. [logout()] never fails and never talks to the server: from a state
    whose header agrees with its token it leaves no user, no token, no
    [token] key in durable storage and no Authorization header, with the
    request log untouched; logging out again changes nothing. *)
Theorem logout_is_local_and_idempotent me me' w :
  headers_synced w →
  let w' := dispatch (mkEvent CallLogout me) w in
  eval logout w = Normal tt ∧
  user w' = None ∧ token w' = None ∧
  localStorage w' !! "token" = None ∧
  headers w' !! "Authorization" = None ∧
  network w' = network w ∧
  dispatch (mkEvent CallLogout me') w' = w'.
Proof.
  intros Hs w'. subst w'. split; [done|].
  unfold dispatch, commit. cbn [ev_action ev_me perform].
  unfold headers_synced in Hs.
  destruct w as [u [t|] l ls h n]; cbn in *.
  - rewrite !lookup_delete_eq, !delete_delete_eq. done.
  - rewrite !lookup_delete_eq, Hs, !delete_delete_eq. done.
Qed.

Lemma logout_is_local_and_idempotent_witness :
  let w' := dispatch (mkEvent CallLogout (inr emily)) emily_session in
  eval logout emily_session = Normal tt ∧
  user w' = None ∧ token w' = None ∧
  localStorage w' !! "token" = None ∧
  headers w' !! "Authorization" = None ∧
  network w' = network emily_session ∧
  dispatch (mkEvent CallLogout (inl ErrNetwork)) w' = w'.
Proof.
  apply (logout_is_local_and_idempotent (inr emily) (inl ErrNetwork) emily_session).
  reflexivity.
Defined.

(** * The route table *)

(** X7. In a settled anonymous session every route, after at most one
    redirect, shows the landing, login or register page and nothing else:
    no protected page, no shell, no further redirect. *)
Theorem anonymous_reaches_public_page w r n :
  loading w = false →
  user w = None →
  settle (S n) w r = Bare LandingPage ∨
  settle (S n) w r = Bare LoginPage ∨
  settle (S n) w r = Bare RegisterPage.
Proof.
  destruct w as [u t l ls h nw]. cbn [loading user]. intros -> ->.
  destruct r; cbn; auto; destruct n; cbn; auto.
Qed.

Lemma anonymous_reaches_public_page_witness :
  let w := bootstrap ∅ (inl ErrNetwork) in
  settle 1 w R_users = Bare LandingPage ∨
  settle 1 w R_users = Bare LoginPage ∨
  settle 1 w R_users = Bare RegisterPage.
Proof.
  apply (anonymous_reaches_public_page (bootstrap ∅ (inl ErrNetwork)) R_users 0);
    reflexivity.
Defined.

(** X8. In a settled authenticated session every route settles after at
    most one redirect on something other than the login or register page;
    those two routes lead to the dashboard inside the shell, and the
    catch-all leads to the landing page. *)
Theorem authenticated_skips_login_pages w u r n :
  loading w = false →
  user w = Some u →
  let s := settle (S n) w r in
  is_redirect s = false ∧
  s ≠ Bare LoginPage ∧ s ≠ Bare RegisterPage ∧
  settle (S n) w R_login = Show (AppShell DashboardPage) ∧
  settle (S n) w R_register = Show (AppShell DashboardPage) ∧
  settle (S n) w R_star = Bare LandingPage.
Proof.
  destruct w as [u' t l ls h nw]. cbn [loading user]. intros -> ->.
  destruct r; cbn; destruct n; cbn; repeat split; done.
Qed.

Lemma authenticated_skips_login_pages_witness :
  let s := settle 1 emily_session R_login in
  is_redirect s = false ∧
  s ≠ Bare LoginPage ∧ s ≠ Bare RegisterPage ∧
  settle 1 emily_session R_login = Show (AppShell DashboardPage) ∧
  settle 1 emily_session R_register = Show (AppShell DashboardPage) ∧
  settle 1 emily_session R_star = Bare LandingPage.
Proof.
  apply (authenticated_skips_login_pages emily_session emily R_login 0);
    reflexivity.
Defined.

(** X9. The route table does not look at the role: in a settled
    authenticated session the path of every entry of [NAV_ITEMS] and
    [ADMIN_NAV] renders its page inside the shell, also for the entries that
    the navigation filter hides from the user's role. *)
Theorem hidden_entries_stay_reachable w u item :
  loading w = false →
  user w = Some u →
  item ∈ (NAV_ITEMS ++ ADMIN_NAV)%list →
  ∃ p, AppRoutes w (select_route (path item)) = Show (AppShell p) ∧
       select_route (path item) ≠ R_star.
Proof.
  destruct w as [u' t l ls h nw]. cbn [loading user]. intros -> -> Hin.
  unfold NAV_ITEMS, ADMIN_NAV in Hin. cbn [app] in Hin.
  repeat (apply elem_of_cons in Hin as [->|Hin];
          [cbn; eexists; split; [reflexivity|discriminate]|]).
  by apply elem_of_nil in Hin.
Qed.

Lemma hidden_entries_stay_reachable_witness :
  includes (roles (mkNavItem "/users" "Users" "Users" ["super_admin"; "main_handler"]))
           (optional_role (user emily_session)) = false ∧
  ∃ p, AppRoutes emily_session
         (select_route (path (mkNavItem "/users" "Users" "Users"
                                ["super_admin"; "main_handler"]))) =
         Show (AppShell p) ∧
       select_route (path (mkNavItem "/users" "Users" "Users"
                              ["super_admin"; "main_handler"])) ≠ R_star.
Proof.
  split; [reflexivity|].
  apply (hidden_entries_stay_reachable emily_session emily
           (mkNavItem "/users" "Users" "Users" ["super_admin"; "main_handler"]));
    [reflexivity | reflexivity | ].
  unfold NAV_ITEMS, ADMIN_NAV. cbn [app]. do 6 apply list_elem_of_further.
  apply list_elem_of_here.
Defined.

(** * The shell's avatar and badge *)

Example initials_emily : initials (Some emily) = "EP".
Proof. reflexivity. Qed.

Example split_spaces : split space " a  b" = [""; "a"; ""; "b"].
Proof. reflexivity. Qed.

Lemma split_from_nonempty s cur : split_from space s cur ≠ [].
Proof.
  revert cur. induction s as [|c s IH]; intros cur; simpl; [done|].
  destruct (Ascii.eqb c space); [done|apply IH].
Qed.

Lemma join_empty_length xs : (String.length (join_empty xs) ≤ length xs)%nat.
Proof.
  induction xs as [|[c|] xs IH]; simpl; lia.
Qed.

Lemma join_empty_all_none xs :
  Forall (λ x, x = None) xs → join_empty xs = "".
Proof. induction 1 as [|x xs -> _ IH]; simpl; auto. Qed.

(** X10. The avatar is never blank: the initials are a non-empty string
    for every session, they are [?] when there is no user and, unless the
    name has a non-empty word, when there is one, and they hold at most one
    character per space-separated word of the name. *)
Theorem initials_never_empty u p :
  initials u ≠ "" ∧
  initials None = "?" ∧
  (String.length (initials (Some p)) ≤ length (split space (name p)))%nat ∧
  (initials (Some p) = "?" ∨ Exists (λ word, word ≠ "") (split space (name p))).
Proof.
  split; [|split; [done|split]].
  - destruct u as [q|]; [|done]. unfold initials.
    destruct (truthy (Some (join_empty _))) eqn:E; [|done].
    by apply truthy_Some in E.
  - unfold initials.
    destruct (truthy (Some (join_empty _))) eqn:E.
    + etrans; [apply join_empty_length|]. by rewrite length_fmap.
    + simpl. pose proof (split_from_nonempty (name p) "") as Hne.
      unfold split. destruct (split_from space (name p) ""); [done|simpl; lia].
  - destruct (decide (Forall (λ word, word = "") (split space (name p)))) as [Hall|Hex].
    + left. unfold initials. rewrite join_empty_all_none; [done|].
      apply Forall_fmap. eapply Forall_impl; [exact Hall|].
      by intros word ->.
    + right. by apply not_Forall_Exists in Hex; [|apply _].
Qed.

(** * NotificationsPage *)

Lemma unread_cons n ns :
  unread (n :: ns) = if notif_read n then unread ns else S (unread ns).
Proof. unfold unread; simpl. by destruct (notif_read n). Qed.

Lemma unread_mark_all ns : unread (mark_read <$> ns) = 0.
Proof. induction ns as [|n ns IH]; [done|]. by rewrite fmap_cons, unread_cons. Qed.

(** X11. [markAllRead]: when the server accepts, every notification is read
    (the badge count is zero), none is added, dropped or reordered, and one
    success toast is shown; when the request fails, the list is left as it
    was and the toast is the error [Failed]. *)
Theorem markAllRead_clears_badge reply ui :
  let ui' := execU (markAllRead reply) ui in
  evalU (markAllRead reply) ui = Normal tt ∧
  match reply with
  | inr _ =>
      unread (notifications ui') = 0 ∧
      (notif_id <$> notifications ui') = (notif_id <$> notifications ui) ∧
      toasts ui' = (toasts ui ++ [toast_success "All marked as read"])%list
  | inl _ =>
      notifications ui' = notifications ui ∧
      toasts ui' = (toasts ui ++ [toast_error "Failed"])%list
  end.
Proof.
  intros ui'. subst ui'. destruct reply as [e|[]]; cbn.
  - done.
  - split; [done|]. split; [apply unread_mark_all|]. split; [|done].
    rewrite <- list_fmap_compose. by apply list_fmap_ext.
Qed.

(** What [markRead] does to one notification. *)
Lemma markRead_notifications id ui :
  notifications (execU (markRead id (inr tt)) ui) =
    ((λ n, if String.eqb (notif_id n) id then mark_read n else n) <$> notifications ui).
Proof. done. Qed.

Section mark_read_one.
Context (id : string).
Let f (n : Notification) : Notification :=
  if String.eqb (notif_id n) id then mark_read n else n.

Lemma mark_one_id n : notif_id (f n) = notif_id n.
Proof. unfold f. by destruct (String.eqb _ _). Qed.

Lemma mark_one_idemp n : f (f n) = f n.
Proof.
  unfold f. destruct (String.eqb (notif_id n) id) eqn:E; [|by rewrite E].
  cbn. by rewrite E.
Qed.

Lemma mark_one_unread_le ns : (unread (f <$> ns) ≤ unread ns)%nat.
Proof.
  induction ns as [|n ns IH]; [done|]. rewrite fmap_cons, !unread_cons.
  unfold f at 1. destruct (String.eqb _ _); cbn; destruct (notif_read n); lia.
Qed.

Lemma mark_one_other ns :
  Forall (λ n, notif_id n ≠ id) ns → f <$> ns = ns.
Proof.
  induction 1 as [|n ns Hn _ IH]; [done|]. rewrite fmap_cons, IH. f_equal.
  unfold f. by destruct (String.eqb_spec (notif_id n) id).
Qed.

Lemma mark_one_unique ns n :
  NoDup (notif_id <$> ns) → n ∈ ns → notif_id n = id → notif_read n = false →
  S (unread (f <$> ns)) = unread ns.
Proof.
  induction ns as [|x ns IH]; intros Hnd Hin Hid Hun.
  { by apply elem_of_nil in Hin. }
  rewrite fmap_cons in Hnd. apply NoDup_cons in Hnd as [Hx Hnd].
  rewrite fmap_cons, !unread_cons.
  destruct (String.eqb_spec (notif_id x) id) as [Hxid|Hxid].
  - assert (n = x) as ->.
    { apply elem_of_cons in Hin as [->|Hin]; [done|]. exfalso. apply Hx.
      rewrite Hxid, <- Hid. by apply list_elem_of_fmap_2. }
    rewrite Hun. unfold f at 1. rewrite Hxid, String.eqb_refl. cbn.
    rewrite mark_one_other; [done|]. apply Forall_forall. intros y Hy Hyid.
    apply Hx. rewrite Hxid, <- Hyid. by apply list_elem_of_fmap_2.
  - apply elem_of_cons in Hin as [->|Hin]; [done|].
    unfold f at 1. destruct (String.eqb_spec (notif_id x) id); [done|].
    destruct (notif_read x); [by apply IH|]. f_equal. by apply IH.
Qed.
End mark_read_one.

(** X12. [markRead(id)]: when the server accepts, the notifications keep
    their number, order and ids, every notification with that id is read,
    those with another id are untouched, the badge count does not grow, and
    marking the same id again changes nothing; when the request fails, the
    list is left as it was and the toast is the error [Failed]. *)
Theorem markRead_touches_only_that_id id reply ui :
  let ns := notifications ui in
  let ui' := execU (markRead id reply) ui in
  let ns' := notifications ui' in
  match reply with
  | inr _ =>
      (notif_id <$> ns') = (notif_id <$> ns) ∧
      Forall (λ n, notif_id n = id → notif_read n = true) ns' ∧
      (∀ i n, ns !! i = Some n → notif_id n ≠ id → ns' !! i = Some n) ∧
      (unread ns' ≤ unread ns)%nat ∧
      notifications (execU (markRead id reply) ui') = ns' ∧
      toasts ui' = toasts ui
  | inl _ =>
      ns' = ns ∧ toasts ui' = (toasts ui ++ [toast_error "Failed"])%list
  end.
Proof.
  intros ns ui' ns'. subst ns ui' ns'. destruct reply as [e|[]]; [done|].
  rewrite !markRead_notifications. repeat split.
  - rewrite <- list_fmap_compose. apply list_fmap_ext. intros _ n _. cbn.
    apply mark_one_id.
  - apply Forall_fmap, Forall_forall. intros n _. cbn.
    destruct (String.eqb_spec (notif_id n) id); [done|]. by intros ?.
  - intros i n Hi Hne. rewrite list_lookup_fmap, Hi. cbn.
    by destruct (String.eqb_spec (notif_id n) id).
  - apply mark_one_unread_le.
  - rewrite <- list_fmap_compose. apply list_fmap_ext. intros _ n _. cbn.
    apply mark_one_idemp.
Qed.

(** X13. When the ids of the notifications are pairwise distinct and the
    one with the given id is unread, an accepted [markRead(id)] lowers the
    badge count by exactly one. *)
Theorem markRead_lowers_badge_by_one id ui n :
  NoDup (notif_id <$> notifications ui) →
  n ∈ notifications ui →
  notif_id n = id →
  notif_read n = false →
  S (unread (notifications (execU (markRead id (inr tt)) ui))) =
    unread (notifications ui).
Proof.
  intros Hnd Hin Hid Hun. rewrite markRead_notifications.
  by apply (mark_one_unique id _ n).
Qed.

Lemma markRead_lowers_badge_by_one_witness :
  let ui := mkUI emily_session [] [] false false false
              [mkNotification "n1" "email" "Welcome" "Hello" "2026-02-07" false;
               mkNotification "n2" "system" "Invoice" "Paid" "2026-02-08" false] in
  S (unread (notifications (execU (markRead "n2" (inr tt)) ui))) =
    unread (notifications ui).
Proof.
  apply (markRead_lowers_badge_by_one "n2"
           (mkUI emily_session [] [] false false false
              [mkNotification "n1" "email" "Welcome" "Hello" "2026-02-07" false;
               mkNotification "n2" "system" "Invoice" "Paid" "2026-02-08" false])
           (mkNotification "n2" "system" "Invoice" "Paid" "2026-02-08" false)).
  - cbn. apply NoDup_cons. split; [|apply NoDup_singleton].
    intros H. apply list_elem_of_singleton in H. discriminate H.
  - cbn. apply list_elem_of_further, list_elem_of_here.
  - reflexivity.
  - reflexivity.
Defined.

(** * LoginPage *)

(** X14. [handleLogin] with an empty email or an empty password sends
    nothing and changes nothing: the session world, the page's loading flag
    and the navigation history are as before, and the only thing shown is the
    error toast asking for both fields. *)
Theorem handleLogin_requires_credentials detail email password reply me ui :
  email = "" ∨ password = "" →
  let ui' := execU (handleLogin detail email password reply me) ui in
  world ui' = world ui ∧
  history ui' = history ui ∧
  login_loading ui' = login_loading ui ∧
  toasts ui' = (toasts ui ++ [toast_error "Please enter email and password"])%list.
Proof.
  intros H ui'. subst ui'. unfold execU, handleLogin.
  assert (negb (truthy (Some email)) || negb (truthy (Some password)) = true) as ->.
  { destruct H as [-> | ->]; [done|]. cbn. apply orb_true_r. }
  done.
Qed.

Lemma handleLogin_requires_credentials_witness :
  let ui' := execU (handleLogin (λ _, None) "employee@enterprise.com" ""
                      (inr (mkLoginData "jwt-emily" emily)) (inr emily))
                   (fresh_ui (bootstrap ∅ (inl ErrNetwork))) in
  world ui' = world (fresh_ui (bootstrap ∅ (inl ErrNetwork))) ∧
  history ui' = history (fresh_ui (bootstrap ∅ (inl ErrNetwork))) ∧
  login_loading ui' = login_loading (fresh_ui (bootstrap ∅ (inl ErrNetwork))) ∧
  toasts ui' = (toasts (fresh_ui (bootstrap ∅ (inl ErrNetwork))) ++
                [toast_error "Please enter email and password"])%list.
Proof.
  apply (handleLogin_requires_credentials (λ _, None) "employee@enterprise.com" ""
           (inr (mkLoginData "jwt-emily" emily)) (inr emily)
           (fresh_ui (bootstrap ∅ (inl ErrNetwork)))).
  right. reflexivity.
Defined.

Lemma dispatch_login_failure email password e me w :
  dispatch (mkEvent (CallLogin email password (inl e)) me) w =
    exec (login email password (inl e)) w.
Proof. unfold dispatch, commit; simpl. by rewrite Object_is_refl. Qed.

Lemma handleLogin_submitted detail email password reply me ui :
  email ≠ "" → password ≠ "" →
  handleLogin detail email password reply me ui =
    (setLoginLoading true;;
     try_catch_finally_err
       (await_login email password reply me;;
        toast (toast_success "Welcome back!");;
        navigate "/dashboard")
       (λ err, toast (toast_error (detail_or detail err "Login failed")))
       (setLoginLoading false))%ui ui.
Proof.
  intros He Hp. apply truthy_Some in He, Hp. unfold handleLogin.
  by rewrite He, Hp.
Qed.

(** X15. [handleLogin] with both fields filled always completes, ends with
    the page's loading flag off, and leaves the session world exactly as the
    [login] call and the render after it leave it.  It navigates to
    [/dashboard] with a welcome toast if and only if the login request
    succeeded; when the request fails it does not navigate, shows the
    server's detail or [Login failed], and the session's user, token and
    storage are untouched. *)
Theorem handleLogin_navigates_iff_accepted detail email password reply me ui :
  email ≠ "" →
  password ≠ "" →
  let ui' := execU (handleLogin detail email password reply me) ui in
  evalU (handleLogin detail email password reply me) ui = Normal tt ∧
  login_loading ui' = false ∧
  world ui' = dispatch (mkEvent (CallLogin email password reply) me) (world ui) ∧
  match reply with
  | inr _ =>
      history ui' = (history ui ++ ["/dashboard"])%list ∧
      toasts ui' = (toasts ui ++ [toast_success "Welcome back!"])%list
  | inl e =>
      history ui' = history ui ∧
      toasts ui' = (toasts ui ++ [toast_error (detail_or detail e "Login failed")])%list ∧
      user (world ui') = user (world ui) ∧
      token (world ui') = token (world ui) ∧
      localStorage (world ui') = localStorage (world ui)
  end.
Proof.
  intros He Hp ui'. subst ui'. unfold execU, evalU.
  rewrite (handleLogin_submitted detail email password reply me ui He Hp).
  assert (world (snd ((setLoginLoading true;;
     try_catch_finally_err
       (await_login email password reply me;;
        toast (toast_success "Welcome back!");;
        navigate "/dashboard")
       (λ err, toast (toast_error (detail_or detail err "Login failed")))
       (setLoginLoading false))%ui ui)) =
    dispatch (mkEvent (CallLogin email password reply) me) (world ui)) as Hw
    by (by destruct reply).
  split; [by destruct reply|]. split; [by destruct reply|]. split; [done|].
  destruct reply as [e|d].
  - rewrite Hw, dispatch_login_failure. done.
  - done.
Qed.

Lemma handleLogin_navigates_iff_accepted_witness :
  let ui := fresh_ui (bootstrap ∅ (inl ErrNetwork)) in
  let ui' := execU (handleLogin (λ _, None) "employee@enterprise.com" "Employee123"
                      (inr (mkLoginData "jwt-emily" emily)) (inr emily)) ui in
  evalU (handleLogin (λ _, None) "employee@enterprise.com" "Employee123"
           (inr (mkLoginData "jwt-emily" emily)) (inr emily)) ui = Normal tt ∧
  login_loading ui' = false ∧
  world ui' = dispatch (mkEvent (CallLogin "employee@enterprise.com" "Employee123"
                                   (inr (mkLoginData "jwt-emily" emily))) (inr emily))
                       (world ui) ∧
  (history ui' = (history ui ++ ["/dashboard"])%list ∧
   toasts ui' = (toasts ui ++ [toast_success "Welcome back!"])%list).
Proof.
  apply (handleLogin_navigates_iff_accepted (λ _, None) "employee@enterprise.com"
           "Employee123" (inr (mkLoginData "jwt-emily" emily)) (inr emily)
           (fresh_ui (bootstrap ∅ (inl ErrNetwork)))); discriminate.
Defined.

Lemma dispatch_login_changed w email password d me :
  data_token d ≠ "" →
  token w ≠ Some (data_token d) →
  let w' := dispatch (mkEvent (CallLogin email password (inr d)) me) w in
  loading w' = false ∧
  user w' = match me with inr u => Some u | inl _ => None end.
Proof.
  intros Hne Hchg w'. subst w'. apply truthy_Some in Hne as Ht.
  unfold dispatch, commit. cbn [ev_action ev_me perform].
  rewrite login_exec. cbn [token]. rewrite (Object_is_ne _ _ Hchg).
  rewrite effects_present by done.
  destruct me as [err|u]; cbn [token].
  - cbn [Object_is]. by rewrite effects_absent.
  - by rewrite Object_is_refl.
Qed.

(** X16. After an accepted [handleLogin] that changes the token, the last
    navigation is to [/dashboard], and what that route shows is decided by
    the profile fetch the login triggers: the dashboard inside the shell when
    [/auth/me] answers, the login page again when it is rejected. *)
Theorem login_lands_by_profile_fetch detail email password d me ui :
  email ≠ "" →
  password ≠ "" →
  data_token d ≠ "" →
  token (world ui) ≠ Some (data_token d) →
  let ui' := execU (handleLogin detail email password (inr d) me) ui in
  last (history ui') = Some "/dashboard" ∧
  settle 1 (world ui') (select_route "/dashboard") =
    match me with
    | inr _ => Show (AppShell DashboardPage)
    | inl _ => Bare LoginPage
    end.
Proof.
  intros He Hp Hne Hchg ui'. subst ui'. unfold execU.
  rewrite (handleLogin_submitted detail email password (inr d) me ui He Hp).
  split; [cbn; apply last_snoc|].
  assert (world (snd ((setLoginLoading true;;
     try_catch_finally_err
       (await_login email password (inr d) me;;
        toast (toast_success "Welcome back!");;
        navigate "/dashboard")
       (λ err, toast (toast_error (detail_or detail err "Login failed")))
       (setLoginLoading false))%ui ui)) =
    dispatch (mkEvent (CallLogin email password (inr d)) me) (world ui)) as ->
    by done.
  destruct (dispatch_login_changed (world ui) email password d me Hne Hchg)
    as [Hl Hu].
  change (select_route "/dashboard") with R_dashboard.
  unfold settle, AppRoutes, ProtectedRoute. rewrite Hl, Hu.
  by destruct me.
Qed.

Lemma login_lands_by_profile_fetch_witness :
  let ui := fresh_ui (bootstrap ∅ (inl ErrNetwork)) in
  let ui' := execU (handleLogin (λ _, None) "employee@enterprise.com" "Employee123"
                      (inr (mkLoginData "jwt-emily" emily)) (inl (ErrResponse 401))) ui in
  last (history ui') = Some "/dashboard" ∧
  settle 1 (world ui') (select_route "/dashboard") = Bare LoginPage.
Proof.
  apply (login_lands_by_profile_fetch (λ _, None) "employee@enterprise.com"
           "Employee123" (mkLoginData "jwt-emily" emily) (inl (ErrResponse 401))
           (fresh_ui (bootstrap ∅ (inl ErrNetwork)))); discriminate.
Defined.

(** * RegisterPage *)

(** X17. [handleRegister] with an empty name, email or password, or with a
    password shorter than six characters, sends nothing and changes nothing
    but the toasts, to which it adds exactly one error. *)
Theorem handleRegister_validates_form detail form purchasedDomain registered reply me ui :
  form_name form = "" ∨ form_email form = "" ∨ form_password form = "" ∨
    (String.length (form_password form) < 6)%nat →
  let ui' := execU (handleRegister detail form purchasedDomain registered reply me) ui in
  world ui' = world ui ∧
  history ui' = history ui ∧
  registering ui' = registering ui ∧
  ∃ msg, toasts ui' = (toasts ui ++ [toast_error msg])%list.
Proof.
  intros H ui'. subst ui'. unfold execU, handleRegister.
  destruct (negb (truthy (Some (form_name form))) ||
            negb (truthy (Some (form_email form))) ||
            negb (truthy (Some (form_password form)))) eqn:E.
  { cbn. eauto 10. }
  destruct (Nat.ltb_spec (String.length (form_password form)) 6) as [Hlt|Hge].
  { cbn. eauto 10. }
  exfalso. apply orb_false_elim in E as [E E3]. apply orb_false_elim in E as [E1 E2].
  apply negb_false_iff, truthy_Some in E1, E2, E3.
  destruct H as [?|[?|[?|?]]]; [done|done|done|lia].
Qed.

Lemma handleRegister_validates_form_witness :
  let form := mkRegisterForm "Emily Park" "employee@enterprise.com" "12345" "Enterprise" in
  let ui := fresh_ui (bootstrap ∅ (inl ErrNetwork)) in
  let ui' := execU (handleRegister (λ _, None) form None (inr (mkRegisterData "jwt-new"))
                      (inr (mkLoginData "jwt-emily" emily)) (inr emily)) ui in
  world ui' = world ui ∧
  history ui' = history ui ∧
  registering ui' = registering ui ∧
  ∃ msg, toasts ui' = (toasts ui ++ [toast_error msg])%list.
Proof.
  apply (handleRegister_validates_form (λ _, None)
           (mkRegisterForm "Emily Park" "employee@enterprise.com" "12345" "Enterprise")
           None (inr (mkRegisterData "jwt-new"))
           (inr (mkLoginData "jwt-emily" emily)) (inr emily)
           (fresh_ui (bootstrap ∅ (inl ErrNetwork)))).
  right. right. right. cbn. lia.
Defined.

Lemma commit_same prev me w : token w = prev → commit prev me w = w.
Proof. intros <-. unfold commit. by rewrite Object_is_refl. Qed.

Lemma handleRegister_submitted detail form purchasedDomain registered reply me ui :
  form_name form ≠ "" → form_email form ≠ "" →
  (6 ≤ String.length (form_password form))%nat →
  handleRegister detail form purchasedDomain registered reply me ui =
    (setRegistering true;;
     try_catch_finally_err
       (do data <- in_world
                     (api_post "/auth/register"
                        [("name", form_name form); ("email", form_email form);
                         ("password", form_password form);
                         ("company", form_company form);
                         ("domain", if truthy purchasedDomain
                                    then default "" purchasedDomain else "")]
                        registered);
        in_world (localStorage_setItem "token" (reg_token data));;
        toast (toast_success "Account created! Welcome to Enterprise One.");;
        await_login (form_email form) (form_password form) reply me;;
        navigate "/dashboard")
       (λ err, toast (toast_error (detail_or detail err "Registration failed")))
       (setRegistering false))%ui ui.
Proof.
  intros Hn He Hp. unfold handleRegister.
  assert (form_password form ≠ "") as Hpw.
  { intros E. rewrite E in Hp. cbn in Hp. lia. }
  apply truthy_Some in Hn, He, Hpw. rewrite Hn, He, Hpw. cbn [negb orb].
  destruct (Nat.ltb_spec (String.length (form_password form)) 6); [lia|done].
Qed.

(** X18. For a form with name and email filled and an ASCII password of at
    least six characters: when the registration is accepted but the login
    that follows it fails, [handleRegister] does not navigate and leaves the
    session's user and token as they were, yet the token of the new account
    stays under the [token] key of durable storage: a reload whose [/auth/me]
    is answered starts authenticated with that token. *)
Theorem register_token_survives_failed_login detail form purchasedDomain rd e me u ui :
  form_name form ≠ "" →
  form_email form ≠ "" →
  is_ascii_string (form_password form) = true →
  (6 ≤ String.length (form_password form))%nat →
  reg_token rd ≠ "" →
  let ui' := execU (handleRegister detail form purchasedDomain (inr rd) (inl e) me) ui in
  let w2 := bootstrap (localStorage (world ui')) (inr u) in
  (localStorage (world ui') !! "token" = Some (reg_token rd) ∧
   token (world ui') = token (world ui) ∧
   user (world ui') = user (world ui)) ∧
  (history ui' = history ui ∧
   registering ui' = false ∧
   toasts ui' =
     (toasts ui ++ [toast_success "Account created! Welcome to Enterprise One.";
                    toast_error (detail_or detail e "Registration failed")])%list) ∧
  (status w2 = Authenticated ∧ user w2 = Some u ∧ token w2 = Some (reg_token rd)).
Proof.
  intros Hn He _ Hp Hrt ui' w2. subst w2 ui'. unfold execU.
  rewrite (handleRegister_submitted detail form purchasedDomain (inr rd) (inl e) me ui
             Hn He Hp).
  assert (localStorage (world (snd ((setRegistering true;;
     try_catch_finally_err
       (do data <- in_world
                     (api_post "/auth/register"
                        [("name", form_name form); ("email", form_email form);
                         ("password", form_password form);
                         ("company", form_company form);
                         ("domain", if truthy purchasedDomain
                                    then default "" purchasedDomain else "")]
                        (inr rd));
        in_world (localStorage_setItem "token" (reg_token data));;
        toast (toast_success "Account created! Welcome to Enterprise One.");;
        await_login (form_email form) (form_password form) (inl e) me;;
        navigate "/dashboard")
       (λ err, toast (toast_error (detail_or detail err "Registration failed")))
       (setRegistering false))%ui ui))) =
     <["token" := reg_token rd]> (localStorage (world ui))) as Hls.
  { destruct ui as [[u0 t l ls h n] ts hs ll rg cp ns]; cbn.
    by rewrite commit_same. }
  rewrite Hls, lookup_insert_eq.
  rewrite (bootstrap_success _ (reg_token rd) u (lookup_insert_eq _ _ _) Hrt).
  destruct ui as [[u0 t l ls h n] ts hs ll rg cp ns]; cbn.
  clear Hls. rewrite commit_same by done. cbn. rewrite <- app_assoc. done.
Qed.

Lemma register_token_survives_failed_login_witness :
  let form := mkRegisterForm "Emily Park" "employee@enterprise.com" "Employee123"
                             "Enterprise" in
  let ui := fresh_ui (bootstrap ∅ (inl ErrNetwork)) in
  let ui' := execU (handleRegister (λ _, None) form None (inr (mkRegisterData "jwt-new"))
                      (inl ErrNetwork) (inr emily)) ui in
  let w2 := bootstrap (localStorage (world ui')) (inr emily) in
  (localStorage (world ui') !! "token" = Some "jwt-new" ∧
   token (world ui') = token (world ui) ∧
   user (world ui') = user (world ui)) ∧
  (history ui' = history ui ∧
   registering ui' = false ∧
   toasts ui' =
     (toasts ui ++ [toast_success "Account created! Welcome to Enterprise One.";
                    toast_error (detail_or (λ _, None) ErrNetwork "Registration failed")])%list) ∧
  (status w2 = Authenticated ∧ user w2 = Some emily ∧ token w2 = Some "jwt-new").
Proof.
  apply (register_token_survives_failed_login (λ _, None)
           (mkRegisterForm "Emily Park" "employee@enterprise.com" "Employee123"
                           "Enterprise")
           None (mkRegisterData "jwt-new") ErrNetwork (inr emily) emily
           (fresh_ui (bootstrap ∅ (inl ErrNetwork))));
    [discriminate | discriminate | reflexivity | cbn; lia | discriminate].
Defined.

(** * SubscriptionPage *)

Lemma refresh_network_le me w :
  (length (network (commit (token w) me (snd (fetchUser me w)))) ≤
   S (length (network w)))%nat.
Proof.
  change (snd (fetchUser me w)) with (exec (fetchUser me) w).
  rewrite fetchUser_exec. destruct (truthy (token w)) eqn:Ht.
  - destruct me as [e|u].
    + unfold commit. cbn [token]. rewrite truthy_not_None by done.
      rewrite effects_absent by done. cbn [token Object_is].
      cbn. rewrite length_app. cbn. lia.
    + rewrite commit_same by done. cbn. rewrite length_app. cbn. lia.
  - rewrite commit_same by done. cbn. lia.
Qed.

Lemma fetchUser_pair me w : fetchUser me w = (Normal tt, exec (fetchUser me) w).
Proof.
  rewrite (surjective_pairing (fetchUser me w)). f_equal. apply fetchUser_settles.
Qed.

Lemma await_refreshUser_run me ui :
  await_refreshUser me ui =
    (Normal tt, set_world (dispatch (mkEvent CallRefreshUser me) (world ui)) ui).
Proof. unfold await_refreshUser. by rewrite fetchUser_pair. Qed.

Section poll_rounds.
Context (sessionId : string) (replies : nat → Reply StatusData) (me : Reply Profile).

Lemma pollStatus_timed_out rounds a ui :
  (5 ≤ a)%nat →
  pollStatus (S rounds) sessionId a replies me ui =
    (Normal tt,
     execU (setCheckingPayment false;;
            toast (toast_error "Payment status check timed out"))%ui ui).
Proof.
  intros H. cbn [pollStatus]. by destruct (Nat.leb_spec 5 a); [|lia].
Qed.

Lemma pollStatus_failed rounds a e ui :
  (a < 5)%nat → replies a = inl e →
  pollStatus (S rounds) sessionId a replies me ui =
    (Normal tt,
     execU (setCheckingPayment false;;
            toast (toast_error "Failed to check status"))%ui
           (status_polled sessionId ui)).
Proof.
  intros H Hr. cbn [pollStatus]. destruct (Nat.leb_spec 5 a); [lia|].
  unfold bindU at 1, try_catch, bindU at 1, in_world, api_get, api_request.
  by rewrite Hr.
Qed.

Lemma pollStatus_paid rounds a d ui :
  (a < 5)%nat → replies a = inr d → payment_status d = "paid" →
  pollStatus (S rounds) sessionId a replies me ui =
    (Normal tt,
     execU (setCheckingPayment false;;
            toast (toast_success "Subscription activated!");;
            await_refreshUser me)%ui
           (status_polled sessionId ui)).
Proof.
  intros H Hr Hp. cbn [pollStatus]. destruct (Nat.leb_spec 5 a); [lia|].
  unfold bindU at 1, try_catch, bindU at 1, in_world, api_get, api_request.
  rewrite Hr. cbn [fst snd]. rewrite Hp. cbn [String.eqb Ascii.eqb Bool.eqb].
  unfold execU, bindU, setCheckingPayment, toast.
  by rewrite !await_refreshUser_run.
Qed.

Lemma pollStatus_expired rounds a d ui :
  (a < 5)%nat → replies a = inr d → payment_status d ≠ "paid" →
  session_status d = "expired" →
  pollStatus (S rounds) sessionId a replies me ui =
    (Normal tt,
     execU (setCheckingPayment false;;
            toast (toast_error "Session expired"))%ui
           (status_polled sessionId ui)).
Proof.
  intros H Hr Hp He. cbn [pollStatus]. destruct (Nat.leb_spec 5 a); [lia|].
  unfold bindU at 1, try_catch, bindU at 1, in_world, api_get, api_request.
  rewrite Hr. cbn [fst snd].
  destruct (String.eqb_spec (payment_status d) "paid"); [done|].
  by rewrite He.
Qed.

Lemma pollStatus_pending rounds a d ui :
  (a < 5)%nat → replies a = inr d → payment_status d ≠ "paid" →
  session_status d ≠ "expired" →
  pollStatus (S rounds) sessionId a replies me ui =
    pollStatus rounds sessionId (a + 1) replies me (status_polled sessionId ui).
Proof.
  intros H Hr Hp He. cbn [pollStatus]. destruct (Nat.leb_spec 5 a); [lia|].
  unfold bindU at 1, try_catch, bindU at 1, in_world, api_get, api_request.
  rewrite Hr. cbn [fst snd].
  destruct (String.eqb_spec (payment_status d) "paid"); [done|].
  by destruct (String.eqb_spec (session_status d) "expired").
Qed.
End poll_rounds.

Lemma status_polled_toasts sid ui : toasts (status_polled sid ui) = toasts ui.
Proof. done. Qed.

Lemma status_polled_history sid ui : history (status_polled sid ui) = history ui.
Proof. done. Qed.

Lemma refresh_network_grows me w :
  ∃ l, network (dispatch (mkEvent CallRefreshUser me) w) = (network w ++ l)%list ∧
       Forall (λ rq, req_url rq = "/auth/me") l ∧ (length l ≤ 1)%nat.
Proof.
  unfold dispatch. cbn [ev_action ev_me perform]. rewrite fetchUser_exec.
  destruct (truthy (token w)) eqn:Ht.
  - exists [me_request w]. destruct me as [e|u].
    + unfold commit. cbn [token]. rewrite truthy_not_None by done.
      rewrite effects_absent by done. cbn. repeat split; [|lia].
      by apply Forall_singleton.
    + rewrite commit_same by done. cbn. repeat split; [|lia].
      by apply Forall_singleton.
  - exists []. rewrite commit_same by done. cbn. rewrite app_nil_r.
    repeat split; [constructor|lia].
Qed.

Section poll_settles.
Context (sessionId : string) (replies : nat → Reply StatusData) (me : Reply Profile).

Let status_url : string := "/subscriptions/status/" +:+ sessionId.

Lemma status_url_not_me : status_url ≠ "/auth/me".
Proof. unfold status_url. cbn. discriminate. Qed.

Lemma pollStatus_settles_from rounds a ui :
  (5 ≤ rounds + a)%nat →
  let r := pollStatus (S rounds) sessionId a replies me ui in
  fst r = Normal tt ∧
  checkingPayment (snd r) = false ∧
  length (toasts (snd r)) = S (length (toasts ui)) ∧
  history (snd r) = history ui ∧
  ∃ l, network (world (snd r)) = (network (world ui) ++ l)%list ∧
       (length (filter (λ rq, req_url rq = status_url) l) ≤ 5 - a)%nat ∧
       (length l ≤ (5 - a) + 1)%nat.
Proof.
  assert (∀ ui0 : UI, ∃ l,
    network (world (status_polled sessionId ui0)) = (network (world ui0) ++ l)%list ∧
    length (filter (λ rq, req_url rq = status_url) l) = 1 ∧ length l = 1) as Hpolled.
  { intros ui0. eexists. split; [reflexivity|]. split; [|done].
    rewrite filter_cons_True by done. done. }
  revert a ui. induction rounds as [|n IH]; intros a ui Hle.
  { rewrite pollStatus_timed_out by lia. cbn.
    rewrite length_app. cbn. do 4 (split; [done || lia|]).
    exists []. rewrite app_nil_r. cbn. repeat split; lia. }
  destruct (Nat.lt_ge_cases a 5) as [Hlt|Hge].
  2:{ rewrite pollStatus_timed_out by lia. cbn.
      rewrite length_app. cbn. do 4 (split; [done || lia|]).
      exists []. rewrite app_nil_r. cbn. repeat split; lia. }
  destruct (Hpolled ui) as (l & Hl & Hc & Hn).
  destruct (replies a) as [e|d] eqn:Hr.
  { rewrite (pollStatus_failed _ _ _ _ _ e) by done.
    cbn -[status_polled]. rewrite length_app. cbn -[status_polled].
    rewrite status_polled_toasts, status_polled_history.
    do 4 (split; [done || lia|]).
    exists l. repeat split; [done|lia|lia]. }
  destruct (String.eqb_spec (payment_status d) "paid") as [Hp|Hp].
  { rewrite (pollStatus_paid _ _ _ _ _ d) by done.
    unfold execU, bindU. cbn -[status_polled await_refreshUser].
    rewrite await_refreshUser_run. cbn -[status_polled dispatch].
    rewrite length_app. cbn -[status_polled dispatch].
    rewrite status_polled_toasts, status_polled_history.
    do 4 (split; [done || lia|]).
    destruct (refresh_network_grows me (world (status_polled sessionId ui)))
      as (l2 & Hl2 & Hme & Hlen).
    exists (l ++ l2)%list. rewrite Hl2, Hl, app_assoc. split; [done|].
    rewrite filter_app, !length_app.
    assert (filter (λ rq, req_url rq = status_url) l2 = []) as ->.
    { clear -Hme. induction Hme as [|rq l2 Hrq _ IH]; [done|].
      rewrite filter_cons_False; [done|]. rewrite Hrq.
      intros E. by apply status_url_not_me. }
    cbn. lia. }
  destruct (String.eqb_spec (session_status d) "expired") as [He|He].
  { rewrite (pollStatus_expired _ _ _ _ _ d) by done.
    cbn -[status_polled]. rewrite length_app. cbn -[status_polled].
    rewrite status_polled_toasts, status_polled_history.
    do 4 (split; [done || lia|]).
    exists l. repeat split; [done|lia|lia]. }
  rewrite (pollStatus_pending _ _ _ _ _ d) by done.
  destruct (IH (a + 1) (status_polled sessionId ui))
    as (H1 & H2 & H3 & H4 & l2 & Hl2 & Hc2 & Hn2); [lia|].
  rewrite status_polled_toasts in H3. rewrite status_polled_history in H4.
  do 4 (split; [done|]).
  exists (l ++ l2)%list. rewrite Hl2, Hl, app_assoc. split; [done|].
  rewrite filter_app, !length_app. lia.
Qed.

Lemma pollStatus_rounds_irrelevant r1 r2 a ui :
  (5 ≤ r1 + a)%nat → (5 ≤ r2 + a)%nat →
  pollStatus (S r1) sessionId a replies me ui =
  pollStatus (S r2) sessionId a replies me ui.
Proof.
  revert r2 a ui. induction r1 as [|r1 IH]; intros r2 a ui H1 H2.
  { by rewrite !pollStatus_timed_out by lia. }
  destruct (Nat.lt_ge_cases a 5) as [Hlt|Hge];
    [|by rewrite !pollStatus_timed_out by lia].
  destruct (replies a) as [e|d] eqn:Hr.
  { by rewrite (pollStatus_failed _ _ _ (S r1) a e), (pollStatus_failed _ _ _ r2 a e) by done. }
  destruct (String.eqb_spec (payment_status d) "paid") as [Hp|Hp].
  { by rewrite (pollStatus_paid _ _ _ (S r1) a d), (pollStatus_paid _ _ _ r2 a d) by done. }
  destruct (String.eqb_spec (session_status d) "expired") as [He|He].
  { by rewrite (pollStatus_expired _ _ _ (S r1) a d), (pollStatus_expired _ _ _ r2 a d) by done. }
  rewrite (pollStatus_pending _ _ _ (S r1) a d), (pollStatus_pending _ _ _ r2 a d)
    by done.
  destruct r2 as [|r2]; [lia|]. apply IH; lia.
Qed.
End poll_settles.

(** X19. [pollStatus] stops polling: whatever the status endpoint and
    [/auth/me] answer, following its timers for six rounds from attempt 0
    completes normally with [checkingPayment] off, exactly one toast shown
    and no navigation, after at most five status requests and at most one
    request more; following the timers any longer changes nothing. *)
Theorem pollStatus_stops_polling sessionId replies me ui k :
  let ui' := execU (pollStatus 6 sessionId 0 replies me) ui in
  evalU (pollStatus 6 sessionId 0 replies me) ui = Normal tt ∧
  checkingPayment ui' = false ∧
  length (toasts ui') = S (length (toasts ui)) ∧
  history ui' = history ui ∧
  (∃ l, network (world ui') = (network (world ui) ++ l)%list ∧
        (length (filter (λ rq, req_url rq = "/subscriptions/status/" +:+ sessionId) l) ≤ 5)%nat ∧
        (length l ≤ 6)%nat) ∧
  pollStatus (6 + k) sessionId 0 replies me ui = pollStatus 6 sessionId 0 replies me ui.
Proof.
  intros ui'. subst ui'. unfold execU, evalU.
  destruct (pollStatus_settles_from sessionId replies me 5 0 ui)
    as (H1 & H2 & H3 & H4 & l & Hl & Hc & Hn); [lia|].
  do 4 (split; [done|]). split.
  - exists l. repeat split; [done|lia|lia].
  - apply (pollStatus_rounds_irrelevant sessionId replies me (5 + k) 5 0 ui); lia.
Qed.

Lemma polled_session n sid ui :
  let ui' := Nat.iter n (status_polled sid) ui in
  user (world ui') = user (world ui) ∧ token (world ui') = token (world ui) ∧
  localStorage (world ui') = localStorage (world ui) ∧
  headers (world ui') = headers (world ui) ∧
  toasts ui' = toasts ui.
Proof.
  induction n as [|n IH]; [done|]. cbn [Nat.iter].
  destruct IH as (? & ? & ? & ? & ?). by repeat split.
Qed.

Lemma pollStatus_reaches_paid sessionId replies me k rounds a d ui :
  (a + k < 5)%nat →
  (∀ j, (j < k)%nat → is_pending (replies (a + j)) = true) →
  replies (a + k) = inr d →
  payment_status d = "paid" →
  (k ≤ rounds)%nat →
  pollStatus (S rounds) sessionId a replies me ui =
    (Normal tt,
     execU (setCheckingPayment false;;
            toast (toast_success "Subscription activated!");;
            await_refreshUser me)%ui
           (Nat.iter (S k) (status_polled sessionId) ui)).
Proof.
  revert rounds a ui. induction k as [|k IH]; intros rounds a ui Hlt Hpend Hr Hp Hk.
  { rewrite Nat.add_0_r in Hr. by rewrite (pollStatus_paid _ _ _ _ _ d) by (done || lia). }
  pose proof (Hpend 0 ltac:(lia)) as H0. rewrite Nat.add_0_r in H0.
  unfold is_pending in H0. destruct (replies a) as [e|d0] eqn:Hr0; [done|].
  destruct (String.eqb_spec (payment_status d0) "paid") as [|Hnp]; [done|].
  destruct (String.eqb_spec (session_status d0) "expired") as [|Hne]; [done|].
  rewrite (pollStatus_pending _ _ _ _ _ d0) by (done || lia).
  destruct rounds as [|rounds]; [lia|].
  rewrite (IH rounds (a + 1) (status_polled sessionId ui)); try lia.
  - by rewrite (Nat.iter_succ_r (S k)).
  - intros j Hj. replace (a + 1 + j) with (a + S j) by lia. apply Hpend. lia.
  - by replace (a + 1 + k) with (a + S k) by lia.
  - done.
Qed.

(** X20. When the status endpoint answers [paid] at one of the first five
    attempts, every earlier attempt having been answered as still pending,
    [pollStatus] shows the activation toast and refreshes a logged-in
    session: if [/auth/me] answers, the profile is replaced by the answer and
    the token is kept; if [/auth/me] fails, the user who has just paid is
    logged out, with token, durable storage and header cleared. *)
Theorem paid_subscription_refreshes_session sessionId replies me ui k d :
  (k < 5)%nat →
  (∀ j, (j < k)%nat → is_pending (replies j) = true) →
  replies k = inr d →
  payment_status d = "paid" →
  truthy (token (world ui)) = true →
  let ui' := execU (pollStatus 6 sessionId 0 replies me) ui in
  toasts ui' = (toasts ui ++ [toast_success "Subscription activated!"])%list ∧
  checkingPayment ui' = false ∧
  match me with
  | inr u =>
      user (world ui') = Some u ∧ token (world ui') = token (world ui) ∧
      localStorage (world ui') = localStorage (world ui)
  | inl _ =>
      user (world ui') = None ∧ token (world ui') = None ∧
      localStorage (world ui') !! "token" = None ∧
      headers (world ui') !! "Authorization" = None
  end.
Proof.
  intros Hk Hpend Hr Hp Ht ui'. subst ui'. unfold execU at 1 2 3 4 5 6 7 8 9.
  rewrite (pollStatus_reaches_paid sessionId replies me k 5 0 d ui) by (done || lia).
  pose proof (polled_session (S k) sessionId ui) as Hf. cbv zeta in Hf.
  revert Hf. generalize (Nat.iter (S k) (status_polled sessionId) ui).
  intros ui1 (Hu & Htk & Hls & Hh & Hto).
  unfold execU, bindU. cbn -[await_refreshUser].
  rewrite await_refreshUser_run. cbn -[dispatch]. rewrite Hto.
  split; [done|]. split; [done|].
  rewrite <- Htk in Ht.
  destruct me as [e|u].
  - rewrite refresh_failure_dispatch by done. cbn.
    by rewrite !lookup_delete_eq.
  - unfold dispatch. cbn [ev_action ev_me perform].
    rewrite fetchUser_exec, Ht, commit_same by done. cbn. by rewrite Htk, Hls.
Qed.

Lemma paid_subscription_refreshes_session_witness :
  let replies := λ n : nat,
    match n with
    | 0 => inr (mkStatusData "unpaid" "open")
    | _ => inr (mkStatusData "paid" "complete")
    end in
  let ui := fresh_ui emily_session in
  let ui' := execU (pollStatus 6 "cs_test_1" 0 replies (inl ErrNetwork)) ui in
  toasts ui' = (toasts ui ++ [toast_success "Subscription activated!"])%list ∧
  checkingPayment ui' = false ∧
  (user (world ui') = None ∧ token (world ui') = None ∧
   localStorage (world ui') !! "token" = None ∧
   headers (world ui') !! "Authorization" = None).
Proof.
  apply (paid_subscription_refreshes_session "cs_test_1"
           (λ n : nat, match n with
                       | 0 => inr (mkStatusData "unpaid" "open")
                       | _ => inr (mkStatusData "paid" "complete")
                       end)
           (inl ErrNetwork) (fresh_ui emily_session) 1
           (mkStatusData "paid" "complete")).
  - lia.
  - intros j Hj. assert (j = 0) as -> by lia. reflexivity.
  - reflexivity.
  - reflexivity.
  - reflexivity.
Defined.
